(** * Remote-shell session manager and telemetry client

A shallow embedding of the non-GUI core of [project/ui04.py] and
[project/workspace/websockui.py]:

- [SSHWorker.receive_output] and [SSHWorker.send_command], the background
  reader of an interactive channel and its write path;
- [SSHTerminal.send_command], the controller's command submission with its
  history and completion lists;
- [DataVisualizer.websocket_client] and [DataVisualizer.update_plot], the
  telemetry subscription loop, its bounded buffer and the plot projection;
- the slots and the life cycle of the terminal ([init_ssh], [display_error],
  [on_connection_closed], [closeEvent]), [SSHLoginDialog.accept] and
  [FileUploader.upload_file].

Python [str] values are lists of code points, [bytes] values are lists of
[Byte.byte].  The environment (what the channel delivers, whether a write
raises, what the feed sends) is an explicit input of every operation, and
signals, widget updates and sleeps are collected in an output trace. *)

From Stdlib Require Import NArith ZArith QArith Qabs Bool Ascii String DecimalString Lia Arith List.
From Stdlib.Strings Require Import Byte.
Import ListNotations.

Local Open Scope N_scope.
Local Open Scope list_scope.

(** ** Python strings *)

(** A [str] is a sequence of Unicode code points. *)
Definition text := list N.
Definition bytes := list byte.

(** A literal of the source file. *)
Definition lit (s : string) : text :=
  map N_of_ascii (list_ascii_of_string s).

Definition NL : N := 10.

Definition text_eqb (a b : text) : bool :=
  if list_eq_dec N.eq_dec a b then true else false.

(** [x in xs] for a list of strings. *)
Definition mem (x : text) (xs : list text) : bool := existsb (text_eqb x) xs.

(** ** Codecs

[bytes.decode] of the Python runtime, for the two codecs the reader names.
[None] stands for [UnicodeDecodeError]. *)
Module Codec.

(** *** UTF-8, strict

  The decoder as a byte-at-a-time automaton: [Start] between characters,
  [Cont need acc lo hi] inside one, with [need] continuation bytes still
  expected, the bits gathered so far and the range allowed for the next
  byte (which excludes overlong forms, surrogates and values above
  U+10FFFF, as the runtime does). *)
Inductive utf8_state :=
| Start
| Cont (need : nat) (acc lo hi : N).

Definition between (lo b hi : N) : bool := (lo <=? b) && (b <=? hi).

Definition utf8_lead (b : N) : option (utf8_state * option N) :=
  if b <? 0x80 then Some (Start, Some b)
  else if between 0xC2 b 0xDF then Some (Cont 1 (N.land b 0x1F) 0x80 0xBF, None)
  else if b =? 0xE0 then Some (Cont 2 (N.land b 0x0F) 0xA0 0xBF, None)
  else if b =? 0xED then Some (Cont 2 (N.land b 0x0F) 0x80 0x9F, None)
  else if between 0xE1 b 0xEF then Some (Cont 2 (N.land b 0x0F) 0x80 0xBF, None)
  else if b =? 0xF0 then Some (Cont 3 (N.land b 0x07) 0x90 0xBF, None)
  else if b =? 0xF4 then Some (Cont 3 (N.land b 0x07) 0x80 0x8F, None)
  else if between 0xF1 b 0xF3 then Some (Cont 3 (N.land b 0x07) 0x80 0xBF, None)
  else None.

Definition utf8_step (st : utf8_state) (b : N) : option (utf8_state * option N) :=
  match st with
  | Start => utf8_lead b
  | Cont need acc lo hi =>
      if between lo b hi then
        let acc' := N.lor (N.shiftl acc 6) (N.land b 0x3F) in
        match need with
        | S (S n) => Some (Cont (S n) acc' 0x80 0xBF, None)
        | _ => Some (Start, Some acc')
        end
      else None
  end.

Fixpoint utf8_run (st : utf8_state) (data : bytes) : option (utf8_state * text) :=
  match data with
  | [] => Some (st, [])
  | b :: rest =>
      match utf8_step st (Byte.to_N b) with
      | None => None
      | Some (st', out) =>
          match utf8_run st' rest with
          | None => None
          | Some (st'', s) =>
              Some (st'', match out with Some c => c :: s | None => s end)
          end
      end
  end.

(** [data.decode("utf-8")]: the input must end between two characters. *)
Definition utf8_decode (data : bytes) : option text :=
  match utf8_run Start data with
  | Some (Start, s) => Some s
  | _ => None
  end.

(** The chunk is well-formed UTF-8. *)
Definition is_utf8 (data : bytes) : bool :=
  match utf8_decode data with Some _ => true | None => false end.

(** *** GBK, errors="ignore" *)
Section Gbk.

(** The two-byte table of the codec (lead byte, trail byte) is data of the
    runtime; every result below holds for any table. *)
Variable gbk_pair : N -> N -> option N.

(** [data.decode("gbk", errors="ignore")].  A byte below 0x80 is itself.  Any
    other byte is a lead byte: with its trail byte it is looked up in the
    table; a miss is an error on the lead byte alone, and a lead byte at the
    end of the input is an error too.  The [ignore] handler drops the
    offending byte and decoding goes on after it, so the call never raises. *)
Fixpoint gbk_decode_ignore (data : bytes) : text :=
  match data with
  | [] => []
  | c :: rest =>
      if Byte.to_N c <? 0x80 then Byte.to_N c :: gbk_decode_ignore rest
      else
        match rest with
        | [] => []
        | c2 :: rest2 =>
            match gbk_pair (Byte.to_N c) (Byte.to_N c2) with
            | Some u => u :: gbk_decode_ignore rest2
            | None => gbk_decode_ignore rest
            end
        end
  end.

(** The reader's decoding of one chunk, lines 148-151 of ui04.py:
    [[
      try:
          output = data.decode("utf-8")
      except UnicodeDecodeError:
          output = data.decode("gbk", errors="ignore")
    ]] *)
Definition decode (data : bytes) : text :=
  match utf8_decode data with
  | Some s => s
  | None => gbk_decode_ignore data
  end.

(** Where a character of the fallback text comes from: an ASCII byte of the
    input, or the table. *)
Definition from_input_or_table (data : bytes) (c : N) : Prop :=
  (c < 0x80 /\ In c (map Byte.to_N data)) \/ exists lead trail, gbk_pair lead trail = Some c.

End Gbk.

(** Four entries of the table, enough for the examples below: the three
    pairs the codec treats apart from its tables, and the pair of U+4E2D. *)
Definition gbk_excerpt (lead trail : N) : option N :=
  if (lead =? 0xA1) && (trail =? 0xAA) then Some 0x2014
  else if (lead =? 0xA8) && (trail =? 0x44) then Some 0x2015
  else if (lead =? 0xA1) && (trail =? 0xA4) then Some 0x00B7
  else if (lead =? 0xD6) && (trail =? 0xD0) then Some 0x4E2D
  else None.

End Codec.

(** ** Data model (ui04.py, lines 66-108) *)

(** A live client or channel object; only its presence is observed. *)
Definition handle := nat.

Record SSHConnection := {
  host : text;
  port : N;
  username : text;
  password : text;
  client : option handle;
  shell : option handle;
  is_connected : bool;
  history : list text;
  completions : list text
}.

Definition default_completions : list text :=
  map lit ["ls"; "cd"; "pwd"; "mkdir"; "rm"; "cp"; "mv"; "cat"; "grep"; "ps";
           "top"; "ifconfig"; "ping"; "sudo"; "apt-get"; "yum"; "docker";
           "git"; "ssh"]%string.

(** ** The background reader, [class SSHWorker] *)
Module SSHWorker.

(** The three Qt signals of the worker. *)
Inductive signal :=
| output_received (s : text)
| error_occurred (s : text)
| connection_closed.

(** What one pass of the loop body meets. *)
Inductive poll :=
| NotReady                            (* shell is None, or recv_ready() is False *)
| Recv (data : bytes)                 (* recv_ready() is True, recv(4096) returns data *)
| Raise (e : text) (is_running : bool).
    (* recv_ready(), recv() or sleep() raises; the flag is self.is_running as
       the handler reads it *)

(** ["\n" in buffer] *)
Definition has_newline (buffer : text) : bool := existsb (N.eqb NL) buffer.

(** [buffer.split("\n", 1)] for a buffer that holds a newline. *)
Fixpoint split_newline (buffer : text) : text * text :=
  match buffer with
  | [] => ([], [])
  | c :: rest =>
      if c =? NL then ([], rest)
      else let '(line, tail) := split_newline rest in (c :: line, tail)
  end.

(** Lines 156-158:
    [[
      while "\n" in buffer:
          line, buffer = buffer.split("\n", 1)
          self.output_received.emit(line + "\n")
    ]]
    Every turn removes a newline, so [length buffer] turns are enough. *)
Fixpoint emit_lines (fuel : nat) (buffer : text) : list signal * text :=
  match fuel with
  | O => ([], buffer)
  | S fuel' =>
      if has_newline buffer then
        let '(line, tail) := split_newline buffer in
        let '(evs, buffer') := emit_lines fuel' tail in
        (output_received (line ++ [NL]) :: evs, buffer')
      else ([], buffer)
  end.

Definition threshold : nat := 100.

(** Lines 161-163:
    [[
      if buffer and len(buffer) > 100:
          self.output_received.emit(buffer)
          buffer = ""
    ]] *)
Definition flush_long (buffer : text) : list signal * text :=
  match buffer with
  | [] => ([], buffer)
  | _ :: _ =>
      if (threshold <? length buffer)%nat then ([output_received buffer], [])
      else ([], buffer)
  end.

(** What the loop keeps between two passes: a short buffer with no newline. *)
Definition short_no_newline (buffer : text) : Prop :=
  (length buffer <= threshold)%nat /\ has_newline buffer = false.

Section Reader.

Variable gbk_pair : N -> N -> option N.

(** The body of the [if ... recv_ready()] branch, lines 147-163. *)
Definition on_data (buffer : text) (data : bytes) : list signal * text :=
  let output := Codec.decode gbk_pair data in
  let buffer := buffer ++ output in
  let '(lines, buffer) := emit_lines (length buffer) buffer in
  let '(long, buffer) := flush_long buffer in
  (lines ++ long, buffer).

(** The [while] loop, lines 144-169, over the passes of its body that a run
    makes: the list ends where the loop condition
    [self.is_running and self.connection.is_connected] is found false, or
    earlier at a pass that raises.  The result is what was emitted and the
    buffer the loop leaves. *)
Fixpoint loop (buffer : text) (script : list poll) : list signal * text :=
  match script with
  | [] => ([], buffer)
  | NotReady :: rest => loop buffer rest
  | Recv data :: rest =>
      let '(evs, buffer') := on_data buffer data in
      let '(evs', final) := loop buffer' rest in
      (evs ++ evs', final)
  | Raise e is_running :: _ =>
      (if is_running then [error_occurred (lit "Connection error: " ++ e)] else [],
       buffer)
  end.

(** Lines 171-173. *)
Definition flush_rest (buffer : text) : list signal :=
  match buffer with
  | [] => []
  | _ :: _ => [output_received buffer]
  end.

(** [SSHWorker.receive_output], lines 141-173. *)
Definition receive_output (script : list poll) : list signal :=
  let '(evs, buffer) := loop [] script in
  evs ++ flush_rest buffer ++ [connection_closed].

End Reader.

(** The chunks a run reads: those before the first pass that raises. *)
Fixpoint received (script : list poll) : list bytes :=
  match script with
  | [] => []
  | NotReady :: rest => received rest
  | Recv data :: rest => data :: received rest
  | Raise _ _ :: _ => []
  end.

(** The text of the output events of a trace, in order. *)
Fixpoint output_text (evs : list signal) : text :=
  match evs with
  | [] => []
  | output_received s :: rest => s ++ output_text rest
  | _ :: rest => output_text rest
  end.

Definition is_closed (s : signal) : bool :=
  match s with connection_closed => true | _ => false end.

Definition is_error (s : signal) : bool :=
  match s with error_occurred _ => true | _ => false end.

Definition is_output (s : signal) : bool :=
  match s with output_received _ => true | _ => false end.

(** What [shell.send] does when it is called. *)
Inductive send_result :=
| Sent
| SendRaises (e : text).

Inductive effect :=
| shell_send (s : text)
| emit (s : signal).

(** [SSHWorker.send_command], lines 133-139:
    [[
      try:
          if self.connection.shell and self.connection.is_connected:
              self.connection.shell.send(f"{command}\n")
      except Exception as e:
          self.error_occurred.emit(f"Failed to send command: {str(e)}")
    ]]
    The connection is returned as the call leaves it. *)
Definition send_command (c : SSHConnection) (command : text) (io : send_result)
  : SSHConnection * list effect :=
  match shell c with
  | Some _ =>
      if is_connected c then
        match io with
        | Sent => (c, [shell_send (command ++ [NL])])
        | SendRaises e =>
            (c, [emit (error_occurred (lit "Failed to send command: " ++ e))])
        end
      else (c, [])
  | None => (c, [])
  end.

End SSHWorker.

(** ** The terminal controller, [class SSHTerminal] *)
Module SSHTerminal.

(** [str.isspace] of one character: the code points the runtime lists as
    whitespace. *)
Definition is_space (c : N) : bool :=
  Codec.between 0x09 c 0x0D || Codec.between 0x1C c 0x20 || (c =? 0x85)
  || (c =? 0xA0) || (c =? 0x1680) || Codec.between 0x2000 c 0x200A
  || (c =? 0x2028) || (c =? 0x2029) || (c =? 0x202F) || (c =? 0x205F)
  || (c =? 0x3000).

Fixpoint lstrip (s : text) : text :=
  match s with
  | [] => []
  | c :: rest => if is_space c then lstrip rest else s
  end.

(** [s.strip()] *)
Definition strip (s : text) : text := rev (lstrip (rev (lstrip s))).

(** The fields of the widget that [send_command] reads or writes. *)
Record t := {
  connection : SSHConnection;
  worker : bool;               (* self.worker is not None *)
  prompt : text
}.

(** [self.prompt], line 187. *)
Definition make_prompt (c : SSHConnection) : text :=
  username c ++ lit "@" ++ host c ++ lit ":~$ ".

Inductive effect :=
| display_output (s : text)
| setup_autocomplete (words : list text)
| worker_effect (e : SSHWorker.effect)
| input_clear.

Definition is_worker_effect (x : effect) : bool :=
  match x with worker_effect _ => true | _ => false end.

Definition append_history (c : SSHConnection) (command : text) : SSHConnection :=
  {| host := host c; port := port c; username := username c;
     password := password c; client := client c; shell := shell c;
     is_connected := is_connected c;
     history := history c ++ [command];
     completions := completions c |}.

Definition append_completion (c : SSHConnection) (command : text) : SSHConnection :=
  {| host := host c; port := port c; username := username c;
     password := password c; client := client c; shell := shell c;
     is_connected := is_connected c;
     history := history c;
     completions := completions c ++ [command] |}.

(** Lines 339-344:
    [[
      if command and command not in self.connection.history:
          self.connection.history.append(command)
          if command not in self.connection.completions:
              self.connection.completions.append(command)
              self.setup_autocomplete()
    ]] *)
Definition record_command (c : SSHConnection) (command : text)
  : SSHConnection * list effect :=
  match command with
  | [] => (c, [])
  | _ :: _ =>
      if mem command (history c) then (c, [])
      else
        let c := append_history c command in
        if mem command (completions c) then (c, [])
        else
          let c := append_completion c command in
          (c, [setup_autocomplete (completions c)])
  end.

(** [SSHTerminal.send_command], lines 330-351; [input] is the text of the
    input line and [io] what the channel does if it is written to. *)
Definition send_command (w : t) (input : text) (io : SSHWorker.send_result)
  : t * list effect :=
  let command := strip input in
  match command with
  | [] => (w, [])
  | _ :: _ =>
      if negb (is_connected (connection w)) then (w, [])
      else
        let echo := [display_output (prompt w ++ command ++ [NL])] in
        let '(c, recorded) := record_command (connection w) command in
        let '(c, sent) :=
          if worker w then SSHWorker.send_command c command io else (c, []) in
        ({| connection := c; worker := worker w; prompt := prompt w |},
         echo ++ recorded ++ map worker_effect sent ++ [input_clear])
  end.

(** A series of submissions, each with what the channel does for it. *)
Fixpoint submit (w : t) (inputs : list (text * SSHWorker.send_result)) : t :=
  match inputs with
  | [] => w
  | (input, io) :: rest => submit (fst (send_command w input io)) rest
  end.

(** The state [init_ssh] leaves after a successful handshake (lines 279-286),
    for a connection made by the login dialog. *)
Definition connected (h u p : text) (pt : N) : t :=
  let c := {| host := h; port := pt; username := u; password := p;
              client := Some 0%nat; shell := Some 1%nat; is_connected := true;
              history := []; completions := default_completions |} in
  {| connection := c; worker := true; prompt := make_prompt c |}.

End SSHTerminal.

(** ** Telemetry records *)

Set Warnings "-register-all".

(** A value as [json.loads] returns it.  Numbers are the rationals they
    denote; a dict is the list of its items in insertion order, with
    distinct keys. *)
Inductive pyval :=
| PNone
| PBool (b : bool)
| PNum (x : Q)
| PStr (s : text)
| PList (l : list pyval)
| PDict (items : list (text * pyval)).

(** [d.get(key)] on the items of a dict, [None] when the key is absent. *)
Fixpoint lookup (items : list (text * pyval)) (key : text) : option pyval :=
  match items with
  | [] => None
  | (k, v) :: rest => if text_eqb key k then Some v else lookup rest key
  end.

(** [d.get(key, default)] *)
Definition dict_get (items : list (text * pyval)) (key : text) (default : pyval)
  : pyval :=
  match lookup items key with
  | Some v => v
  | None => default
  end.

(** The least magnitude of an integer that does not convert to a float:
    from 2^1024 - 2^970 on, [float(n)] raises [OverflowError].  Every finite
    float is below it. *)
Definition float_overflow : Z := Z.shiftl 0x3FFFFFFFFFFFFF 970.

Definition fits_float (x : Q) : bool :=
  negb (Qle_bool (inject_Z float_overflow) (Qabs x)).

Module WS.

(** [class WebSocketData], a dataclass: the annotations ([float],
    [Dict[str, float]]) are not checked when a record is built, so a field
    holds whatever value it was given. *)
Record WebSocketData := {
  timestamp : pyval;
  variables : pyval
}.

Definition is_num (v : pyval) : bool :=
  match v with PNum _ => true | _ => false end.

(** A number that a float holds. *)
Definition is_float (v : pyval) : bool :=
  match v with PNum x => fits_float x | _ => false end.

(** A record as the annotations describe it. *)
Definition well_typed (d : WebSocketData) : bool :=
  is_float (timestamp d)
  && match variables d with
     | PDict items => forallb (fun kv => is_float (snd kv)) items
     | _ => false
     end.

End WS.

(** ** The telemetry client and presenter, [class DataVisualizer] *)
Module DataVisualizer.

Import WS.

(** [class PlotWidget]: the data contract of the plot. *)
Record PlotWidget := {
  plot_variables : list text;
  times : list pyval;
  values : list (text * list pyval)
}.

(** The fields of the widget that the client and the presenter use. *)
Record t := {
  data_buffer : list WebSocketData;
  max_data_points : nat;
  variables : list text;                 (* self.variables *)
  table : list (text * pyval);           (* the rows of self.table, values unformatted *)
  plot_widget : PlotWidget
}.

(** [__init__]: an empty buffer of capacity 100. *)
Definition init : t :=
  {| data_buffer := []; max_data_points := 100; variables := []; table := [];
     plot_widget := {| plot_variables := []; times := []; values := [] |} |}.

Definition set_buffer (w : t) (buffer : list WebSocketData) : t :=
  {| data_buffer := buffer; max_data_points := max_data_points w;
     variables := variables w; table := table w;
     plot_widget := plot_widget w |}.

(** Lines 693-695 of ui04.py, 128-130 of websockui.py:
    [[
      self.data_buffer.append(ws_data)
      if len(self.data_buffer) > self.max_data_points:
          self.data_buffer.pop(0)
    ]] *)
Definition append (w : t) (ws_data : WebSocketData) : t :=
  let buffer := data_buffer w ++ [ws_data] in
  if (max_data_points w <? length buffer)%nat then set_buffer w (tl buffer)
  else set_buffer w buffer.

(** The two files differ in the handlers of the inner [try]. *)
Inductive variant := ui04 | websockui.

(** The text of [self.ws_status]. *)
Inductive status := Connected | DisconnectedRetrying.

Inductive effect :=
| set_status (s : status)
| data_updated (d : WebSocketData)
| print_error                          (* print(f"Data processing error: {e}") *)
| sleep (seconds : N).

(** What [json.loads(message)] does: it returns a value, raises
    [json.JSONDecodeError] (a text that is not JSON), or raises something
    else ([UnicodeDecodeError] on a binary frame, [RecursionError], a plain
    [ValueError] on an over-long integer). *)
Inductive loads_result :=
| Loaded (data : pyval)
| JSONDecodeError
| LoadsError.

(** One inbound message: what [json.loads(message)] does and what
    [time.time()] reads. *)
Record message := {
  json_loads : loads_result;
  now : pyval
}.

(** Lines 688-691 of ui04.py, 123-126 of websockui.py:
    [[
      ws_data = WebSocketData(
          timestamp=data.get("timestamp", time.time()),
          variables=data.get("variables", {}),
      )
    ]] *)
Definition make_record (items : list (text * pyval)) (now : pyval)
  : WebSocketData :=
  {| timestamp := dict_get items (lit "timestamp") now;
     WS.variables := dict_get items (lit "variables") (PDict []) |}.

(** The body of [async for], lines 686-699 of ui04.py and 121-132 of
    websockui.py.  The boolean is [false] when an exception leaves the body.
    Both files catch [json.JSONDecodeError] and go on.  Any other exception
    ([json.loads] raising something else, or [data.get] raising
    [AttributeError], since only a dict has [get]) is caught by ui04.py
    ([except Exception], which prints) and not by websockui.py. *)
Definition on_message (v : variant) (w : t) (m : message)
  : t * list effect * bool :=
  let other_exception :=
    match v with
    | ui04 => (w, [print_error], true)
    | websockui => (w, [], false)
    end in
  match json_loads m with
  | JSONDecodeError => (w, [], true)
  | LoadsError => other_exception
  | Loaded (PDict items) =>
      let ws_data := make_record items (now m) in
      (append w ws_data, [data_updated ws_data], true)
  | Loaded _ => other_exception
  end.

(** [async for message in websocket]: the messages in turn, until one lets an
    exception out. *)
Fixpoint receive (v : variant) (w : t) (msgs : list message)
  : t * list effect * bool :=
  match msgs with
  | [] => (w, [], true)
  | m :: rest =>
      let '(w', evs, ok) := on_message v w m in
      if ok then
        let '(w'', evs', ok') := receive v w' rest in (w'', evs ++ evs', ok')
      else (w', evs, false)
  end.

(** How the iteration over an open connection ends: the iterator is
    exhausted (the peer closed normally), or it raises. *)
Inductive stream_end := EndOfStream | StreamRaises.

(** One pass of [while True]: the connection attempt raises, or it opens and
    delivers messages. *)
Inductive attempt :=
| ConnectRaises
| Opened (msgs : list message) (fin : stream_end).

(** The [except Exception] handler of the outer [try]. *)
Definition retry : list effect := [set_status DisconnectedRetrying; sleep 3].

(** The body of [while True], lines 678-703 of ui04.py and 108-136 of
    websockui.py. *)
Definition pass (v : variant) (w : t) (a : attempt) : t * list effect :=
  match a with
  | ConnectRaises => (w, retry)
  | Opened msgs fin =>
      let '(w', evs, ok) := receive v w msgs in
      let raised :=
        if ok then match fin with EndOfStream => false | StreamRaises => true end
        else true in
      (w', set_status Connected :: evs ++ (if raised then retry else []))
  end.

(** [websocket_client] over the passes a run has made so far; the loop has
    no exit. *)
Fixpoint websocket_client (v : variant) (w : t) (attempts : list attempt)
  : t * list effect :=
  match attempts with
  | [] => (w, [])
  | a :: rest =>
      let '(w', evs) := pass v w a in
      let '(w'', evs') := websocket_client v w' rest in
      (w'', evs ++ evs')
  end.

Definition is_sleep (e : effect) : bool :=
  match e with sleep _ => true | _ => false end.

Definition is_retry_mark (e : effect) : bool :=
  match e with set_status DisconnectedRetrying => true | _ => false end.

(** A trace with no backoff and no "disconnected, retrying" mark. *)
Definition quiet (evs : list effect) : Prop :=
  filter is_sleep evs = [] /\ filter is_retry_mark evs = [].

(** A pass that ends in the outer handler. *)
Definition raises (v : variant) (w : t) (a : attempt) : bool :=
  match a with
  | ConnectRaises => true
  | Opened msgs fin =>
      let '(_, _, ok) := receive v w msgs in
      if ok then match fin with EndOfStream => false | StreamRaises => true end
      else true
  end.

(** The passes of a run that end in the outer handler. *)
Fixpoint failures (v : variant) (w : t) (attempts : list attempt) : nat :=
  match attempts with
  | [] => 0
  | a :: rest =>
      ((if raises v w a then 1 else 0) + failures v (fst (pass v w a)) rest)%nat
  end.

(** A message on which [json.loads] does not raise [JSONDecodeError]. *)
Definition decodable (m : message) : bool :=
  match json_loads m with JSONDecodeError => false | _ => true end.

(** *** The presenter *)

(** The record has a variable map. *)
Definition has_dict (d : WebSocketData) : bool :=
  match WS.variables d with PDict _ => true | _ => false end.

(** The value a record holds for a variable, 0 when it has none. *)
Definition value_or_zero (var : text) (d : WebSocketData) : pyval :=
  match WS.variables d with
  | PDict items =>
      match lookup items var with
      | Some y => y
      | None => PNum 0
      end
  | _ => PNum 0
  end.

(** [f"{value:.2f}"] formats a number through a float: it accepts a bool
    and a number that converts to a float, and raises on an integer too
    large for one ([OverflowError]) and on anything that is not a number. *)
Definition formattable (v : pyval) : bool :=
  match v with
  | PNum x => fits_float x
  | PBool _ => true
  | _ => false
  end.

(** [d.variables.get(var, 0)]; [None] when [d.variables] has no [get]. *)
Definition get_var (var : text) (d : WebSocketData) : option pyval :=
  match WS.variables d with
  | PDict items => Some (dict_get items var (PNum 0))
  | _ => None
  end.

(** [[d.variables.get(var, 0) for d in self.data_buffer]] *)
Fixpoint series (var : text) (buffer : list WebSocketData) : option (list pyval) :=
  match buffer with
  | [] => Some []
  | d :: rest =>
      match get_var var d, series var rest with
      | Some y, Some ys => Some (y :: ys)
      | _, _ => None
      end
  end.

(** [values[var] = ys] on the items of a dict. *)
Fixpoint dict_set (items : list (text * list pyval)) (var : text) (ys : list pyval)
  : list (text * list pyval) :=
  match items with
  | [] => [(var, ys)]
  | (k, old) :: rest =>
      if text_eqb var k then (k, ys) :: rest else (k, old) :: dict_set rest var ys
  end.

(** [{var: [...] for var in self.variables}], built from [acc]. *)
Fixpoint comprehension (acc : list (text * list pyval)) (vars : list text)
  (buffer : list WebSocketData) : option (list (text * list pyval)) :=
  match vars with
  | [] => Some acc
  | var :: rest =>
      match series var buffer with
      | Some ys => comprehension (dict_set acc var ys) rest buffer
      | None => None
      end
  end.


Definition list_text_eqb (a b : list text) : bool :=
  if list_eq_dec (list_eq_dec N.eq_dec) a b then true else false.

(** [update_plot], lines 714-748 of ui04.py and 145-178 of websockui.py.
    [None] when the call raises. *)
Definition update_plot (w : t) : option t :=
  match last (map Some (data_buffer w)) None with
  | None => Some w
  | Some latest_data =>
      match WS.variables latest_data with
      | PDict items =>
          if forallb (fun kv => formattable (snd kv)) items then
            let new_vars := map fst items in
            let same := list_text_eqb new_vars (variables w) in
            let vars := if same then variables w else new_vars in
            let times := map timestamp (data_buffer w) in
            match comprehension [] vars (data_buffer w) with
            | Some values =>
                Some {| data_buffer := data_buffer w;
                        max_data_points := max_data_points w;
                        variables := vars;
                        table := items;
                        plot_widget :=
                          {| plot_variables :=
                               if same then plot_variables (plot_widget w)
                               else vars;
                             times := times;
                             values := values |} |}
            | None => None
            end
          else None
      | _ => None
      end
  end.

End DataVisualizer.

(** ** Shapes of the reader's output events *)

(** A complete line: text without a newline, followed by one. *)
Definition is_line (s : text) : Prop :=
  exists line, s = line ++ [NL] /\ SSHWorker.has_newline line = false.

(** A flush of the loop body: newline-free text longer than the threshold. *)
Definition is_long_flush (s : text) : Prop :=
  SSHWorker.has_newline s = false /\ (SSHWorker.threshold < length s)%nat.

Definition well_shaped (s : SSHWorker.signal) : Prop :=
  match s with
  | SSHWorker.output_received t => is_line t \/ is_long_flush t
  | _ => True
  end.

(** A byte below 0x80. *)
Definition is_ascii (b : byte) : bool := Byte.to_N b <? 0x80.

(** A pass that raises. *)
Definition is_raise (p : SSHWorker.poll) : bool :=
  match p with SSHWorker.Raise _ _ => true | _ => false end.

(** [str(n)] for a non-negative integer. *)
Definition decimal (n : N) : text :=
  lit (DecimalString.NilZero.string_of_uint (N.to_uint n)).

(** ** The slots and the life cycle of [class SSHTerminal] *)
Module SSHTerminalEvents.

Inductive effect :=
| display_output (s : text)
| input_set_enabled (b : bool)
| input_set_focus
| single_shot_close (msec : N)          (* QTimer.singleShot(msec, tab_close_requested.emit) *)
| tab_close_requested
| message_critical (s : text)           (* QMessageBox.critical(self, "SSH Error", s) *)
| thread_start
| worker_stop
| thread_quit
| thread_wait (msec : N)
| shell_close
| client_close
| event_accept.

Definition set_connected (c : SSHConnection) (b : bool) : SSHConnection :=
  {| host := host c; port := port c; username := username c;
     password := password c; client := client c; shell := shell c;
     is_connected := b; history := history c; completions := completions c |}.

Definition with_connection (w : SSHTerminal.t) (c : SSHConnection) : SSHTerminal.t :=
  {| SSHTerminal.connection := c; SSHTerminal.worker := SSHTerminal.worker w;
     SSHTerminal.prompt := SSHTerminal.prompt w |}.

(** [display_error], lines 326-328. *)
Definition display_error (error : text) : list effect :=
  [display_output ([NL] ++ lit "[ERROR] " ++ error ++ [NL])].

Definition closed_notice : text :=
  [NL] ++ lit "Connection closed. This tab will close in 2 seconds..." ++ [NL].

(** [on_connection_closed], lines 353-360. *)
Definition on_connection_closed (w : SSHTerminal.t) : SSHTerminal.t * list effect :=
  (with_connection w (set_connected (SSHTerminal.connection w) false),
   [display_output closed_notice; input_set_enabled false; single_shot_close 2000]).

(** The three connections made in [init_ssh], lines 290-292: what the widget
    does with one signal of its worker. *)
Definition on_signal (w : SSHTerminal.t) (s : SSHWorker.signal)
  : SSHTerminal.t * list effect :=
  match s with
  | SSHWorker.output_received output => (w, [display_output output])
  | SSHWorker.error_occurred error => (w, display_error error)
  | SSHWorker.connection_closed => on_connection_closed w
  end.

(** The signals of a run, delivered in the order they were emitted. *)
Fixpoint deliver (w : SSHTerminal.t) (signals : list SSHWorker.signal)
  : SSHTerminal.t * list effect :=
  match signals with
  | [] => (w, [])
  | s :: rest =>
      let '(w', evs) := on_signal w s in
      let '(w'', evs') := deliver w' rest in
      (w'', evs ++ evs')
  end.

(** The text put on the output pane, in order. *)
Fixpoint shown (evs : list effect) : text :=
  match evs with
  | [] => []
  | display_output s :: rest => s ++ shown rest
  | _ :: rest => shown rest
  end.

Definition is_single_shot (e : effect) : bool :=
  match e with single_shot_close _ => true | _ => false end.

Definition is_close_call (e : effect) : bool :=
  match e with shell_close | client_close => true | _ => false end.

Definition is_critical (e : effect) : bool :=
  match e with message_critical _ => true | _ => false end.

Definition is_tab_close (e : effect) : bool :=
  match e with tab_close_requested => true | _ => false end.

(** What [closeEvent] meets: whether the worker thread is running, and
    whether closing the channel or the client raises. *)
Record close_env := {
  thread_running : bool;       (* self.worker_thread and self.worker_thread.isRunning() *)
  shell_close_raises : bool;
  client_close_raises : bool
}.

(** Lines 372-378: the two closes inside [try: ... except: pass]. *)
Definition close_calls (c : SSHConnection) (env : close_env) : list effect :=
  match shell c with
  | Some _ =>
      if shell_close_raises env then [shell_close]
      else shell_close :: match client c with
                          | Some _ => [client_close]
                          | None => []
                          end
  | None => match client c with
            | Some _ => [client_close]
            | None => []
            end
  end.

(** [closeEvent], lines 362-380. *)
Definition closeEvent (w : SSHTerminal.t) (env : close_env)
  : SSHTerminal.t * list effect :=
  let stopping :=
    if thread_running env then
      (if SSHTerminal.worker w then [worker_stop] else [])
      ++ [thread_quit; thread_wait 1000]
    else [] in
  let c := SSHTerminal.connection w in
  if is_connected c then
    (with_connection w (set_connected c false),
     stopping ++ close_calls c env ++ [event_accept])
  else (w, stopping ++ [event_accept]).

(** What the handshake of [init_ssh] meets: [connect] returns, raises
    [paramiko.AuthenticationException], or raises anything else
    ([NoValidConnectionsError], a timeout, ...). *)
Inductive connect_result :=
| connected_ok
| authentication_exception
| connect_raises (e : text).

(** [invoke_shell] returns the channel, or raises (not an authentication
    exception). *)
Inductive shell_result :=
| shell_ok (channel : handle)
| shell_raises (e : text).

(** How [init_ssh] ends: it returns, or [AttributeError] leaves it (and the
    constructor), with the connection as it is then. *)
Inductive init_result :=
| returned (w : SSHTerminal.t) (evs : list effect)
| attribute_error (c : SSHConnection).

Definition with_client (c : SSHConnection) (h : handle) : SSHConnection :=
  {| host := host c; port := port c; username := username c;
     password := password c; client := Some h; shell := shell c;
     is_connected := is_connected c; history := history c;
     completions := completions c |}.

Definition with_shell (c : SSHConnection) (h : handle) : SSHConnection :=
  {| host := host c; port := port c; username := username c;
     password := password c; client := client c; shell := Some h;
     is_connected := is_connected c; history := history c;
     completions := completions c |}.

Definition welcome (c : SSHConnection) : text :=
  lit "Successfully connected to " ++ host c ++ lit ":" ++ decimal (port c)
  ++ [NL] ++ lit "Type 'exit' to close the connection" ++ [NL; NL].

(** [__init__] up to [init_ssh], lines 184-188, and [init_ssh], lines
    263-316.  [new_client] is the object [paramiko.SSHClient()] returns.

    The handlers are tried in order.  An authentication exception is caught
    by the first.  For any other exception the second is tried, and its
    expression [paramiko.NoValidConnectionsError] is evaluated: the package
    exports no such name at its top level (the class lives in
    [paramiko.ssh_exception], from where ui01.py imports it), so the lookup
    raises [AttributeError], and neither this handler nor the third runs. *)
Definition init_ssh (c : SSHConnection) (new_client : handle)
  (r : connect_result) (s : shell_result) : init_result :=
  let c1 := with_client c new_client in
  match r with
  | authentication_exception =>
      returned {| SSHTerminal.connection := c1; SSHTerminal.worker := false;
                  SSHTerminal.prompt := SSHTerminal.make_prompt c |}
               [message_critical (lit "Authentication failed: Check username/password");
                tab_close_requested]
  | connect_raises _ => attribute_error c1
  | connected_ok =>
      match s with
      | shell_raises _ => attribute_error c1
      | shell_ok channel =>
          let c' := set_connected (with_shell c1 channel) true in
          returned {| SSHTerminal.connection := c'; SSHTerminal.worker := true;
                      SSHTerminal.prompt := SSHTerminal.make_prompt c |}
                   [thread_start; display_output (welcome c'); input_set_enabled true;
                    input_set_focus]
      end
  end.

(** The connection [init_ssh] leaves. *)
Definition connection_after (r : init_result) : SSHConnection :=
  match r with
  | returned w _ => SSHTerminal.connection w
  | attribute_error c => c
  end.

(** What [init_ssh] shows, emits and starts. *)
Definition effects_of (r : init_result) : list effect :=
  match r with
  | returned _ evs => evs
  | attribute_error _ => []
  end.

End SSHTerminalEvents.

(** ** The login dialog, [class SSHLoginDialog] *)
Module SSHLoginDialog.

(** The texts of the four fields; of the port field, what
    [int(self.port_edit.text().strip())] gives ([None] when it raises
    [ValueError]). *)
Record fields := {
  host_edit : text;
  port_edit : option Z;
  user_edit : text;
  pass_edit : text
}.

(** The message of the [ValueError] that is shown. *)
Inductive input_error :=
| invalid_literal                        (* raised by int() *)
| value_error (msg : text).

(** [self.connection = SSHConnection(host="")], line 404. *)
Definition blank : SSHConnection :=
  {| host := []; port := 22; username := []; password := [];
     client := None; shell := None; is_connected := false;
     history := []; completions := default_completions |}.

(** [accept], lines 456-473: the connection the dialog hands over when it
    accepts, or the warning it shows.  The fields are assigned before they
    are checked; the connection is read only after the dialog accepted. *)
Definition accept (f : fields) : SSHConnection + input_error :=
  let h := SSHTerminal.strip (host_edit f) in
  match port_edit f with
  | None => inr invalid_literal
  | Some p =>
      let u := SSHTerminal.strip (user_edit f) in
      let pw := SSHTerminal.strip (pass_edit f) in
      match h with
      | [] => inr (value_error (lit "Host cannot be empty"))
      | _ :: _ =>
          if ((p <? 1) || (65535 <? p))%Z then
            inr (value_error (lit "Invalid port number (1-65535)"))
          else
            match u with
            | [] => inr (value_error (lit "Username cannot be empty"))
            | _ :: _ =>
                inl {| host := h; port := Z.to_N p; username := u; password := pw;
                       client := None; shell := None; is_connected := false;
                       history := []; completions := default_completions |}
            end
      end
  end.

End SSHLoginDialog.

(** ** The file uploader, [class FileUploader] *)
Module FileUploader.

Definition SLASH : N := 47.

(** [s.endswith("/")] *)
Definition endswith_slash (s : text) : bool :=
  match rev s with
  | c :: _ => c =? SLASH
  | [] => false
  end.

(** [s.split("/")[-1]]: what follows the last slash. *)
Fixpoint last_component (s : text) : text :=
  match s with
  | [] => []
  | c :: rest =>
      if existsb (N.eqb SLASH) rest then last_component rest
      else if c =? SLASH then rest else s
  end.

(** Lines 1044-1048. *)
Definition remote_dir (remote_path : text) : text :=
  if endswith_slash remote_path then remote_path else remote_path ++ [SLASH].

Definition full_remote_path (remote_path file_path : text) : text :=
  remote_dir remote_path ++ last_component file_path.

(** How a call on the SFTP client ends. *)
Inductive outcome :=
| done
| raises_io_error (e : text)
| raises_other (e : text).

Record sftp_env := {
  open_sftp : outcome;
  stat : outcome;
  mkdir : outcome;
  put : outcome;
  close : outcome
}.

Record t := {
  ssh_connection : option SSHConnection;
  file_edit : text;
  remote_path : text
}.

Inductive effect :=
| message_warning (s : text)             (* QMessageBox.warning(self, "Upload Error", s) *)
| upload_set_enabled (b : bool)
| status (s : text)
| call_open_sftp
| call_stat (path : text)
| call_mkdir (path : text)
| call_put (local remote : text)
| call_close.

Definition message_of (o : outcome) : text :=
  match o with
  | done => []
  | raises_io_error e => e
  | raises_other e => e
  end.

(** The [except Exception] handler and the [finally] clause, lines
    1066-1072. *)
Definition upload_failed (e : text) : list effect :=
  [status (lit "Upload failed: " ++ e);
   message_warning (lit "Upload failed: " ++ e);
   upload_set_enabled true].

(** Lines 1061-1065 and the [finally] clause. *)
Definition put_and_close (env : sftp_env) (local remote : text) : list effect :=
  call_put local remote ::
  match put env with
  | done =>
      call_close ::
      match close env with
      | done => [status (lit "Upload successful: " ++ remote); upload_set_enabled true]
      | o => upload_failed (message_of o)
      end
  | o => upload_failed (message_of o)
  end.

(** [upload_file], lines 1028-1072. *)
Definition upload_file (w : t) (env : sftp_env) : list effect :=
  match ssh_connection w with
  | None => [message_warning (lit "No active SSH connection")]
  | Some c =>
      if negb (is_connected c) then [message_warning (lit "No active SSH connection")]
      else
        match SSHTerminal.strip (file_edit w) with
        | [] => [message_warning (lit "No file selected")]
        | (_ :: _) as file_path =>
            match SSHTerminal.strip (remote_path w) with
            | [] => [message_warning (lit "Remote path cannot be empty")]
            | (_ :: _) as rp =>
                let dir := remote_dir rp in
                let remote := dir ++ last_component file_path in
                [upload_set_enabled false; status (lit "Uploading...")] ++
                match client c with
                | None =>
                    upload_failed
                      (lit "'NoneType' object has no attribute 'open_sftp'")
                | Some _ =>
                    call_open_sftp ::
                    match open_sftp env with
                    | done =>
                        call_stat dir ::
                        match stat env with
                        | done => put_and_close env file_path remote
                        | raises_io_error _ =>
                            call_mkdir dir ::
                            match mkdir env with
                            | done => put_and_close env file_path remote
                            | o => upload_failed (message_of o)
                            end
                        | raises_other e => upload_failed e
                        end
                    | o => upload_failed (message_of o)
                    end
                end
            end
        end
  end.

Definition is_sftp_call (e : effect) : bool :=
  match e with
  | call_open_sftp | call_stat _ | call_mkdir _ | call_put _ _ | call_close => true
  | _ => false
  end.

Definition is_put (e : effect) : bool :=
  match e with call_put _ _ => true | _ => false end.

(** The status line announces the upload to [remote] as successful. *)
Definition is_success (remote : text) (e : effect) : bool :=
  match e with
  | status s => text_eqb s (lit "Upload successful: " ++ remote)
  | _ => false
  end.

Definition is_warning (e : effect) : bool :=
  match e with message_warning _ => true | _ => false end.

(** Every call on the SFTP client returns. *)
Definition all_done (env : sftp_env) : bool :=
  match open_sftp env, put env, close env with
  | done, done, done =>
      match stat env with
      | done => true
      | raises_io_error _ => match mkdir env with done => true | _ => false end
      | raises_other _ => false
      end
  | _, _, _ => false
  end.

End FileUploader.

(** The checks of [upload_file] that come before the upload, lines
    1030-1042. *)
Definition upload_ready (w : FileUploader.t) : bool :=
  match FileUploader.ssh_connection w with
  | Some c =>
      is_connected c
      && negb (text_eqb (SSHTerminal.strip (FileUploader.file_edit w)) [])
      && negb (text_eqb (SSHTerminal.strip (FileUploader.remote_path w)) [])
  | None => false
  end.

(** The trace ends by enabling the upload button again. *)
Definition ends_enabled (evs : list FileUploader.effect) : Prop :=
  exists before, evs = before ++ [FileUploader.upload_set_enabled true].

(** The remote path [upload_file] writes to. *)
Definition upload_target (w : FileUploader.t) : text :=
  FileUploader.full_remote_path (SSHTerminal.strip (FileUploader.remote_path w))
                                (SSHTerminal.strip (FileUploader.file_edit w)).

(** ** Telemetry messages and their records *)

(** The records of the messages that decode to objects, in order. *)
Fixpoint records_of (msgs : list DataVisualizer.message) : list WS.WebSocketData :=
  match msgs with
  | [] => []
  | m :: rest =>
      match DataVisualizer.json_loads m with
      | DataVisualizer.Loaded (PDict items) =>
          DataVisualizer.make_record items (DataVisualizer.now m) :: records_of rest
      | _ => records_of rest
      end
  end.

(** The messages a run has been delivered, pass after pass. *)
Fixpoint delivered (attempts : list DataVisualizer.attempt) : list DataVisualizer.message :=
  match attempts with
  | [] => []
  | DataVisualizer.ConnectRaises :: rest => delivered rest
  | DataVisualizer.Opened msgs _ :: rest => msgs ++ delivered rest
  end.

(** A message as the feed documents it: an object whose [timestamp], when
    present, is a number and whose [variables], when present, is an object
    of numbers, each one a number that a float holds; the clock reads a
    float. *)
Definition documented (m : DataVisualizer.message) : bool :=
  WS.is_float (DataVisualizer.now m)
  && match DataVisualizer.json_loads m with
     | DataVisualizer.Loaded (PDict items) =>
         match lookup items (lit "timestamp") with
         | Some v => WS.is_float v
         | None => true
         end
         && match lookup items (lit "variables") with
            | Some (PDict vars) => forallb (fun kv => WS.is_float (snd kv)) vars
            | Some _ => false
            | None => true
            end
     | _ => false
     end.

(** The payloads of the [data_updated] signal in a trace. *)
Fixpoint updates (evs : list DataVisualizer.effect) : list WS.WebSocketData :=
  match evs with
  | [] => []
  | DataVisualizer.data_updated d :: rest => d :: updates rest
  | _ :: rest => updates rest
  end.

(** A decoded value that is not an object. *)
Definition is_non_object (m : DataVisualizer.message) : bool :=
  match DataVisualizer.json_loads m with
  | DataVisualizer.Loaded (PDict _) => false
  | DataVisualizer.Loaded _ => true
  | _ => false
  end.

(** A message in whose processing an exception other than
    [JSONDecodeError] is raised: [json.loads] raises it, or the decoded
    value is not an object. *)
Definition lets_exception_out (m : DataVisualizer.message) : bool :=
  match DataVisualizer.json_loads m with
  | DataVisualizer.Loaded (PDict _) => false
  | DataVisualizer.JSONDecodeError => false
  | _ => true
  end.

(** * Properties *)

(** ** Strings *)

Lemma text_eqb_eq (a b : text) : text_eqb a b = true <-> a = b.
Proof.
  unfold text_eqb. destruct (list_eq_dec N.eq_dec a b); split; congruence.
Qed.

Lemma text_eqb_refl (a : text) : text_eqb a a = true.
Proof. now apply text_eqb_eq. Qed.

Lemma text_eqb_neq (a b : text) : text_eqb a b = false <-> a <> b.
Proof.
  unfold text_eqb. destruct (list_eq_dec N.eq_dec a b); split; congruence.
Qed.

Lemma mem_In (x : text) (xs : list text) : mem x xs = true <-> In x xs.
Proof.
  unfold mem. rewrite existsb_exists. split.
  - intros (y & Hy & E). apply text_eqb_eq in E. now subst.
  - intros H. exists x. split; [assumption | apply text_eqb_refl].
Qed.

Lemma mem_not_In (x : text) (xs : list text) : mem x xs = false <-> ~ In x xs.
Proof.
  rewrite <- mem_In. destruct (mem x xs); split; congruence.
Qed.

(** ** The codecs *)

Example utf8_two_bytes : Codec.utf8_decode [xc3; xa9] = Some [0xE9].
Proof. reflexivity. Qed.

Example utf8_three_bytes : Codec.utf8_decode [xe4; xb8; xad] = Some [0x4E2D].
Proof. reflexivity. Qed.

Example utf8_four_bytes : Codec.utf8_decode [xf0; x9f; x98; x80] = Some [0x1F600].
Proof. reflexivity. Qed.

Example utf8_rejects :
  map Codec.utf8_decode
      [[xc0; x80]; [xed; xa0; x80]; [xf4; x90; x80; x80]; [xe4; xb8]; [x80]; [xff]]
  = [None; None; None; None; None; None].
Proof. reflexivity. Qed.

Example gbk_ignore_skips_one_byte :
  Codec.gbk_decode_ignore Codec.gbk_excerpt [x81; x7f; x41; xd6; xd0; xd6]
  = [0x7F; 0x41; 0x4E2D].
Proof. reflexivity. Qed.

(** The automaton reads a concatenation by reading its parts in turn. *)
Lemma utf8_run_app (a b : bytes) : forall st,
  Codec.utf8_run st (a ++ b) =
  match Codec.utf8_run st a with
  | None => None
  | Some (st', s) =>
      match Codec.utf8_run st' b with
      | None => None
      | Some (st'', s') => Some (st'', s ++ s')
      end
  end.
Proof.
  induction a as [|x a IH]; intros st; simpl.
  - destruct (Codec.utf8_run st b) as [[st'' s']|]; reflexivity.
  - destruct (Codec.utf8_step st (to_N x)) as [[st' out]|]; [|reflexivity].
    rewrite IH.
    destruct (Codec.utf8_run st' a) as [[st1 s1]|]; [|reflexivity].
    destruct (Codec.utf8_run st1 b) as [[st2 s2]|]; [|reflexivity].
    destruct out; reflexivity.
Qed.

Lemma utf8_decode_Some (data : bytes) (s : text) :
  Codec.utf8_decode data = Some s <-> Codec.utf8_run Codec.Start data = Some (Codec.Start, s).
Proof.
  unfold Codec.utf8_decode.
  destruct (Codec.utf8_run Codec.Start data) as [[[|n acc lo hi] s']|];
    split; congruence.
Qed.

(** Two well-formed chunks decode, together, to their two texts. *)
Lemma utf8_decode_app (a b : bytes) (sa sb : text) :
  Codec.utf8_decode a = Some sa ->
  Codec.utf8_decode b = Some sb ->
  Codec.utf8_decode (a ++ b) = Some (sa ++ sb).
Proof.
  rewrite !utf8_decode_Some. intros Ha Hb.
  now rewrite utf8_run_app, Ha, Hb.
Qed.

Lemma utf8_run_length (data : bytes) : forall st st' s,
  Codec.utf8_run st data = Some (st', s) -> (length s <= length data)%nat.
Proof.
  induction data as [|x data IH]; intros st st' s; simpl.
  - intros [= _ <-]. simpl. lia.
  - destruct (Codec.utf8_step st (to_N x)) as [[st1 out]|]; [|discriminate].
    destruct (Codec.utf8_run st1 data) as [[st2 s2]|] eqn:E; [|discriminate].
    intros [= _ <-]. apply IH in E. destruct out; simpl; lia.
Qed.

Lemma utf8_decode_length (data : bytes) (s : text) :
  Codec.utf8_decode data = Some s -> (length s <= length data)%nat.
Proof.
  rewrite utf8_decode_Some. apply utf8_run_length.
Qed.

Section CodecFacts.

Variable gbk_pair : N -> N -> option N.

Lemma decode_utf8 (data : bytes) (s : text) :
  Codec.utf8_decode data = Some s -> Codec.decode gbk_pair data = s.
Proof. unfold Codec.decode. now intros ->. Qed.

(** The fallback decoder, by induction on the length of the input (it steps
    over one byte or two). *)
Lemma gbk_ignore_ind (P : bytes -> Prop) :
  (forall n data, (forall d, (length d < n)%nat -> P d) -> length data = n -> P data) ->
  forall data, P data.
Proof.
  intros H data.
  assert (G : forall n d, (length d < n)%nat -> P d).
  { induction n as [|n IH]; intros d Hd; [lia|].
    apply (H (length d) d); [|reflexivity].
    intros d' Hd'. apply IH. lia. }
  apply (G (S (length data))). lia.
Qed.

Lemma gbk_ignore_length (data : bytes) :
  (length (Codec.gbk_decode_ignore gbk_pair data) <= length data)%nat.
Proof.
  induction data as [n data IH Hn] using gbk_ignore_ind.
  destruct data as [|c rest]; simpl; [lia|].
  destruct (to_N c <? 128).
  - simpl. assert (length (Codec.gbk_decode_ignore gbk_pair rest) <= length rest)%nat.
    { apply IH. simpl in Hn. lia. }
    lia.
  - destruct rest as [|c2 rest2]; simpl; [lia|].
    destruct (gbk_pair (to_N c) (to_N c2)).
    + assert (length (Codec.gbk_decode_ignore gbk_pair rest2) <= length rest2)%nat.
      { apply IH. simpl in Hn. lia. }
      simpl. lia.
    + assert (length (Codec.gbk_decode_ignore gbk_pair (c2 :: rest2)) <= length (c2 :: rest2))%nat.
      { apply IH. simpl in Hn. simpl. lia. }
      simpl in *. lia.
Qed.

Lemma from_input_or_table_cons (x : byte) (data : bytes) (c : N) :
  Codec.from_input_or_table gbk_pair data c ->
  Codec.from_input_or_table gbk_pair (x :: data) c.
Proof.
  intros [[H1 H2]|H]; [left|right; assumption].
  split; [assumption|]. simpl. now right.
Qed.

Lemma gbk_ignore_origin (data : bytes) :
  Forall (Codec.from_input_or_table gbk_pair data) (Codec.gbk_decode_ignore gbk_pair data).
Proof.
  induction data as [n data IH Hn] using gbk_ignore_ind.
  destruct data as [|c rest]; simpl; [constructor|].
  destruct (to_N c <? 128) eqn:Hc.
  - constructor.
    + left. apply N.ltb_lt in Hc. split; [assumption|]. simpl. now left.
    + eapply Forall_impl; [apply from_input_or_table_cons|].
      apply IH. simpl in Hn. lia.
  - destruct rest as [|c2 rest2]; [constructor|].
    destruct (gbk_pair (to_N c) (to_N c2)) as [u|] eqn:Hu.
    + constructor.
      * right. now exists (to_N c), (to_N c2).
      * eapply Forall_impl; [intros a Ha; apply from_input_or_table_cons,
                             from_input_or_table_cons, Ha|].
        apply IH. simpl in Hn. lia.
    + eapply Forall_impl; [apply from_input_or_table_cons|].
      apply IH. simpl in Hn. simpl. lia.
Qed.

Lemma decode_length (data : bytes) :
  (length (Codec.decode gbk_pair data) <= length data)%nat.
Proof.
  unfold Codec.decode. destruct (Codec.utf8_decode data) as [s|] eqn:E.
  - now apply utf8_decode_length.
  - apply gbk_ignore_length.
Qed.

(** Chunks that are each well-formed UTF-8 decode, joined, to the join of
    their decodings. *)
Lemma utf8_decode_concat (chunks : list bytes) :
  forallb Codec.is_utf8 chunks = true ->
  Codec.utf8_decode (concat chunks)
  = Some (concat (map (Codec.decode gbk_pair) chunks)).
Proof.
  induction chunks as [|c chunks IH]; simpl; [reflexivity|].
  intros H. apply andb_true_iff in H as [Hc Hr].
  unfold Codec.is_utf8 in Hc.
  destruct (Codec.utf8_decode c) as [s|] eqn:E; [|discriminate].
  rewrite (decode_utf8 c s E).
  apply utf8_decode_app; auto.
Qed.

End CodecFacts.

(** ** The reader *)

Import SSHWorker.

Lemma output_text_app (a b : list signal) :
  output_text (a ++ b) = output_text a ++ output_text b.
Proof.
  induction a as [|[s| |] a IH]; simpl; [reflexivity| |assumption|assumption].
  now rewrite IH, app_assoc.
Qed.

Lemma has_newline_cons (c : N) (rest : text) :
  has_newline (c :: rest) = (c =? NL) || has_newline rest.
Proof. unfold has_newline. cbn [existsb]. now rewrite N.eqb_sym. Qed.

Lemma split_newline_cons (c : N) (rest : text) :
  split_newline (c :: rest) =
  if c =? NL then ([], rest)
  else (c :: fst (split_newline rest), snd (split_newline rest)).
Proof. cbn [split_newline]. now destruct (split_newline rest). Qed.

Lemma split_newline_spec (buffer : text) :
  has_newline buffer = true ->
  buffer = fst (split_newline buffer) ++ NL :: snd (split_newline buffer)
  /\ has_newline (fst (split_newline buffer)) = false
  /\ (length (snd (split_newline buffer)) < length buffer)%nat.
Proof.
  induction buffer as [|c rest IH]; [discriminate|].
  rewrite has_newline_cons, split_newline_cons.
  destruct (c =? NL) eqn:E.
  - apply N.eqb_eq in E. subst c. intros _. cbn. repeat split. lia.
  - intros H. destruct (IH H) as (H1 & H2 & H3).
    cbn [fst snd]. rewrite has_newline_cons, E, H2.
    repeat split; [cbn; congruence | cbn [length]; lia].
Qed.

(** With fuel for every character, the inner loop emits only output events,
    emits the text it removes from the buffer, and leaves no newline. *)
Lemma emit_lines_spec (fuel : nat) : forall buffer,
  (length buffer <= fuel)%nat ->
  output_text (fst (emit_lines fuel buffer)) ++ snd (emit_lines fuel buffer) = buffer
  /\ has_newline (snd (emit_lines fuel buffer)) = false
  /\ forallb is_output (fst (emit_lines fuel buffer)) = true
  /\ (length (snd (emit_lines fuel buffer)) <= length buffer)%nat.
Proof.
  induction fuel as [|fuel IH]; intros buffer Hlen; simpl.
  - destruct buffer; [|simpl in Hlen; lia]. repeat split. simpl. lia.
  - destruct (has_newline buffer) eqn:Hn; simpl; [|repeat split; auto].
    destruct (split_newline_spec buffer Hn) as (H1 & H2 & H3).
    destruct (split_newline buffer) as [line tail]. simpl in *.
    destruct (IH tail ltac:(lia)) as (I1 & I2 & I3 & I4).
    destruct (emit_lines fuel tail) as [evs buffer']. simpl in *.
    repeat split; auto.
    + cbn [output_text]. rewrite <- !app_assoc. cbn [app].
      rewrite I1. symmetry. exact H1.
    + lia.
Qed.

Lemma emit_lines_no_newline (fuel : nat) (buffer : text) :
  has_newline buffer = false -> emit_lines fuel buffer = ([], buffer).
Proof.
  destruct fuel; simpl; [reflexivity|]. now intros ->.
Qed.

Lemma flush_long_spec (buffer : text) :
  output_text (fst (flush_long buffer)) ++ snd (flush_long buffer) = buffer
  /\ (length (snd (flush_long buffer)) <= threshold)%nat
  /\ forallb is_output (fst (flush_long buffer)) = true
  /\ (has_newline buffer = false -> has_newline (snd (flush_long buffer)) = false).
Proof.
  unfold flush_long. destruct buffer as [|c rest].
  - cbn [fst snd output_text app forallb length]. repeat split; auto.
    apply Nat.le_0_l.
  - destruct (threshold <? length (c :: rest))%nat eqn:E.
    + cbn [fst snd output_text forallb is_output andb length].
      rewrite !app_nil_r. repeat split; auto. apply Nat.le_0_l.
    + apply Nat.ltb_ge in E. cbn [fst snd output_text app forallb].
      repeat split; auto.
Qed.

Section ReaderFacts.

Variable gbk_pair : N -> N -> option N.

(** One read: the events carry exactly the text that left the buffer, and
    what stays is short and has no newline. *)
Lemma on_data_spec (buffer : text) (data : bytes) :
  output_text (fst (on_data gbk_pair buffer data)) ++ snd (on_data gbk_pair buffer data)
  = buffer ++ Codec.decode gbk_pair data
  /\ (length (snd (on_data gbk_pair buffer data)) <= threshold)%nat
  /\ has_newline (snd (on_data gbk_pair buffer data)) = false
  /\ forallb is_output (fst (on_data gbk_pair buffer data)) = true.
Proof.
  unfold on_data.
  set (acc := buffer ++ Codec.decode gbk_pair data).
  destruct (emit_lines_spec (length acc) acc (le_n _)) as (E1 & E2 & E3 & _).
  destruct (emit_lines (length acc) acc) as [lines b1]. simpl in *.
  destruct (flush_long_spec b1) as (F1 & F2 & F3 & F4).
  destruct (flush_long b1) as [long b2]. simpl in *.
  repeat split; auto.
  - rewrite output_text_app, <- app_assoc, F1. exact E1.
  - rewrite forallb_app, E3, F3. reflexivity.
Qed.

(** The loop: what it emits, followed by what it leaves, is what it was
    given followed by the decoded chunks; it never emits the closed event;
    and the buffer stays short and free of newlines. *)
Lemma loop_spec (script : list poll) : forall buffer,
  output_text (fst (loop gbk_pair buffer script)) ++ snd (loop gbk_pair buffer script)
  = buffer ++ concat (map (Codec.decode gbk_pair) (received script))
  /\ existsb is_closed (fst (loop gbk_pair buffer script)) = false
  /\ (short_no_newline buffer -> short_no_newline (snd (loop gbk_pair buffer script))).
Proof.
  induction script as [|p script IH]; intros buffer; simpl.
  - rewrite app_nil_r. auto.
  - destruct p as [|data|e running]; simpl.
    + apply IH.
    + destruct (on_data_spec buffer data) as (D1 & D2 & D3 & D4).
      destruct (on_data gbk_pair buffer data) as [evs buffer']. simpl in *.
      destruct (IH buffer') as (L1 & L2 & L3).
      destruct (loop gbk_pair buffer' script) as [evs' final]. simpl in *.
      repeat split.
      * rewrite output_text_app, <- app_assoc, L1, app_assoc, D1, <- app_assoc.
        reflexivity.
      * rewrite existsb_app, L2, orb_false_r.
        clear - D4. induction evs as [|[s| |] evs IH]; simpl in *;
          try discriminate; auto.
      * apply L3. split; assumption.
      * apply L3. split; assumption.
    + rewrite app_nil_r.
      destruct running; (split; [reflexivity | split; [reflexivity | auto]]).
Qed.

Lemma output_text_receive_output (script : list poll) :
  output_text (receive_output gbk_pair script)
  = concat (map (Codec.decode gbk_pair) (received script)).
Proof.
  unfold receive_output.
  destruct (loop_spec script []) as (L1 & _ & _).
  destruct (loop gbk_pair [] script) as [evs final]. simpl in *.
  rewrite output_text_app, output_text_app. simpl. rewrite app_nil_r.
  rewrite <- L1. f_equal.
  destruct final; simpl; [reflexivity|]. now rewrite app_nil_r.
Qed.

(** C1, as amended.  The text of the output events of a run, final flush
    included, is the concatenation of the texts of the chunks it read, each
    chunk decoded on its own.  When every chunk is well-formed UTF-8 by
    itself (no character straddles a chunk boundary) this is the decoding of
    the whole byte stream, and two runs that read the same bytes, split at
    different such places, emit the same text. *)
Theorem receive_output_reassembly (script : list poll) :
  output_text (receive_output gbk_pair script)
  = concat (map (Codec.decode gbk_pair) (received script))
  /\ (forallb Codec.is_utf8 (received script) = true ->
      output_text (receive_output gbk_pair script)
      = Codec.decode gbk_pair (concat (received script)))
  /\ (forall script',
        forallb Codec.is_utf8 (received script) = true ->
        forallb Codec.is_utf8 (received script') = true ->
        concat (received script) = concat (received script') ->
        output_text (receive_output gbk_pair script)
        = output_text (receive_output gbk_pair script')).
Proof.
  assert (whole : forall sc, forallb Codec.is_utf8 (received sc) = true ->
            output_text (receive_output gbk_pair sc)
            = Codec.decode gbk_pair (concat (received sc))).
  { intros sc H. rewrite output_text_receive_output.
    symmetry. apply decode_utf8. now apply utf8_decode_concat. }
  split; [apply output_text_receive_output|].
  split; [apply whole|].
  intros script' H H' E. rewrite (whole _ H), (whole _ H'). now rewrite E.
Qed.

(** C3.  Whatever the passes of the loop were and however it ended, the run
    emits what the loop emitted, then the remaining buffer as an output
    event when it is not empty, then the closed event; the closed event
    occurs nowhere before, so it is emitted once and last. *)
Theorem receive_output_closes_once (script : list poll) :
  let body := fst (loop gbk_pair [] script) in
  let final := snd (loop gbk_pair [] script) in
  receive_output gbk_pair script
  = body
    ++ match final with [] => [] | _ :: _ => [output_received final] end
    ++ [connection_closed]
  /\ existsb is_closed body = false
  /\ length (filter is_closed (receive_output gbk_pair script)) = 1%nat.
Proof.
  cbv zeta. unfold receive_output.
  destruct (loop_spec script []) as (_ & L2 & _).
  destruct (loop gbk_pair [] script) as [body final]. cbn [fst snd] in *.
  assert (F : filter is_closed body = []).
  { clear - L2. induction body as [|[s| |] body IH]; cbn in *;
      try discriminate; auto. }
  split; [|split; [assumption|]].
  - destruct final; reflexivity.
  - rewrite !filter_app, F. destruct final; reflexivity.
Qed.

(** C8, as amended.  Decoding a chunk never raises: a chunk that is
    well-formed UTF-8 gives its UTF-8 text; any other chunk gives its GBK
    text with the undecodable bytes dropped, so every character of that text
    is an ASCII byte of the chunk or an entry of the table, nothing is put in
    the place of a dropped byte, and the text is at most as long as the
    chunk (it can be empty). *)
Theorem decode_drops_undecodable (data : bytes) :
  (forall s, Codec.utf8_decode data = Some s -> Codec.decode gbk_pair data = s)
  /\ (Codec.utf8_decode data = None ->
      Codec.decode gbk_pair data = Codec.gbk_decode_ignore gbk_pair data
      /\ Forall (Codec.from_input_or_table gbk_pair data)
                (Codec.decode gbk_pair data))
  /\ (length (Codec.decode gbk_pair data) <= length data)%nat.
Proof.
  split; [intros s; apply decode_utf8|].
  split; [|apply decode_length].
  intros H. unfold Codec.decode. rewrite H.
  split; [reflexivity | apply gbk_ignore_origin].
Qed.

Lemma has_newline_app (a b : text) :
  has_newline (a ++ b) = has_newline a || has_newline b.
Proof. apply existsb_app. Qed.

(** A pass whose accumulated text is short and has no newline emits nothing
    and keeps all of it. *)
Lemma on_data_retains (buffer : text) (data : bytes) :
  has_newline (buffer ++ Codec.decode gbk_pair data) = false ->
  (length (buffer ++ Codec.decode gbk_pair data) <= threshold)%nat ->
  on_data gbk_pair buffer data = ([], buffer ++ Codec.decode gbk_pair data).
Proof.
  intros Hn Hlen. unfold on_data.
  rewrite (emit_lines_no_newline _ _ Hn). unfold flush_long.
  destruct (buffer ++ Codec.decode gbk_pair data) as [|c rest] eqn:E; [reflexivity|].
  apply Nat.ltb_ge in Hlen. now rewrite Hlen.
Qed.

(** Passes that read newline-free text emit nothing as long as what has
    accumulated is within the threshold: the buffer is what it was followed
    by all the text read. *)
Lemma loop_accumulates (pre : list poll) : forall buffer,
  existsb is_raise pre = false ->
  has_newline (buffer ++ concat (map (Codec.decode gbk_pair) (received pre))) = false ->
  (length (buffer ++ concat (map (Codec.decode gbk_pair) (received pre)))
   <= threshold)%nat ->
  loop gbk_pair buffer pre
  = ([], buffer ++ concat (map (Codec.decode gbk_pair) (received pre))).
Proof.
  induction pre as [|p pre IH]; intros buffer R Hn Hlen.
  - cbn. now rewrite app_nil_r.
  - cbn [existsb] in R. apply orb_false_iff in R as [Rp Rr].
    destruct p as [|data|e running]; [| |discriminate].
    + cbn [loop received]. now apply IH.
    + cbn [loop received map concat] in *.
      rewrite app_assoc in Hn, Hlen.
      assert (Hn1 : has_newline (buffer ++ Codec.decode gbk_pair data) = false).
      { rewrite has_newline_app in Hn. now apply orb_false_iff in Hn as [Hn _]. }
      assert (Hl1 : (length (buffer ++ Codec.decode gbk_pair data) <= threshold)%nat).
      { rewrite length_app in Hlen. lia. }
      rewrite (on_data_retains buffer data Hn1 Hl1).
      rewrite (IH _ Rr Hn Hlen). now rewrite app_assoc.
Qed.

(** A run goes on, after passes that did not raise, from the buffer they
    left. *)
Lemma loop_app (before after : list poll) : forall buffer,
  existsb is_raise before = false ->
  loop gbk_pair buffer (before ++ after)
  = (fst (loop gbk_pair buffer before)
     ++ fst (loop gbk_pair (snd (loop gbk_pair buffer before)) after),
     snd (loop gbk_pair (snd (loop gbk_pair buffer before)) after)).
Proof.
  induction before as [|p before IH]; intros buffer R.
  - cbn. now destruct (loop gbk_pair buffer after).
  - cbn [existsb] in R. apply orb_false_iff in R as [Rp Rr].
    destruct p as [|data|e running]; [| |discriminate]; cbn [app loop].
    + now apply IH.
    + destruct (on_data gbk_pair buffer data) as [evs buffer'].
      rewrite (IH buffer' Rr).
      destruct (loop gbk_pair buffer' before) as [evs' final]. cbn [fst snd].
      now rewrite app_assoc.
Qed.

(** C9.  In any run, after passes [before] that left some buffer, let
    passes [pre] read text without a newline that, with that buffer, stays
    within the threshold: the run emits nothing for them and keeps all of
    it.  When the next read makes the accumulated text, still without a
    newline, longer than the threshold, that pass emits the whole of it, the
    buffer left by [before] and everything read since, as one output event,
    and leaves the buffer empty.  For a single pass: when the buffer and the
    text just read hold no newline and are together longer than the
    threshold, the pass emits the whole of it as one output event and
    clears the buffer.  And whatever the passes were, the buffer the loop
    keeps is never longer than the threshold and never holds a newline. *)
Theorem flush_threshold_progress (before pre : list poll) (buffer : text)
  (data : bytes) (script : list poll) :
  (let held := snd (loop gbk_pair [] before)
               ++ concat (map (Codec.decode gbk_pair) (received pre)) in
   let acc := held ++ Codec.decode gbk_pair data in
   existsb is_raise (before ++ pre) = false ->
   has_newline acc = false ->
   (length held <= threshold)%nat ->
   (threshold < length acc)%nat ->
   loop gbk_pair [] (before ++ pre) = (fst (loop gbk_pair [] before), held)
   /\ loop gbk_pair [] (before ++ pre ++ [Recv data])
      = (fst (loop gbk_pair [] before) ++ [output_received acc], []))
  /\ (let acc := buffer ++ Codec.decode gbk_pair data in
      has_newline acc = false ->
      (threshold < length acc)%nat ->
      on_data gbk_pair buffer data = ([output_received acc], []))
  /\ (length (snd (loop gbk_pair [] script)) <= threshold)%nat
  /\ has_newline (snd (loop gbk_pair [] script)) = false.
Proof.
  assert (step : forall b, let acc := b ++ Codec.decode gbk_pair data in
            has_newline acc = false -> (threshold < length acc)%nat ->
            on_data gbk_pair b data = ([output_received acc], [])).
  { intros b acc Hn Hlen. unfold on_data. fold acc.
    rewrite (emit_lines_no_newline _ _ Hn). unfold flush_long.
    destruct acc as [|c rest] eqn:E; [cbn in Hlen; lia|].
    apply Nat.ltb_lt in Hlen. rewrite Hlen. reflexivity. }
  split; [|split; [apply step|]].
  - cbv zeta. intros R Hn Hlen Hlong.
    rewrite existsb_app in R. apply orb_false_iff in R as [Rb Rp].
    assert (Hn' : has_newline
                    (snd (loop gbk_pair [] before)
                     ++ concat (map (Codec.decode gbk_pair) (received pre))) = false).
    { rewrite has_newline_app in Hn. now apply orb_false_iff in Hn as [Hn _]. }
    pose proof (loop_accumulates pre (snd (loop gbk_pair [] before)) Rp Hn' Hlen) as A.
    split.
    + rewrite (loop_app before pre [] Rb), A. cbn [fst snd]. now rewrite app_nil_r.
    + rewrite app_assoc, (loop_app (before ++ pre) [Recv data] []).
      * rewrite (loop_app before pre [] Rb), A. cbn [fst snd loop].
        rewrite (step _ Hn Hlong). cbn [fst snd]. now rewrite !app_nil_r.
      * rewrite existsb_app, Rb, Rp. reflexivity.
  - destruct (loop_spec script []) as (_ & _ & L3).
    apply L3. split; [apply Nat.le_0_l | reflexivity].
Qed.

End ReaderFacts.

Lemma receive_output_reassembly_witness :
  let script := [Recv [xe4; xb8; xad; x0a; x24]; NotReady; Recv [x20; xc3; xa9]] in
  forallb Codec.is_utf8 (received script) = true
  /\ output_text (receive_output Codec.gbk_excerpt script)
     = Codec.decode Codec.gbk_excerpt (concat (received script)).
Proof.
  cbv zeta. split; [reflexivity|].
  apply (proj1 (proj2 (receive_output_reassembly Codec.gbk_excerpt
    [Recv [xe4; xb8; xad; x0a; x24]; NotReady; Recv [x20; xc3; xa9]]))).
  reflexivity.
Defined.

(** C1 as stated fails: the two bytes of U+00E9, read in one chunk, are
    emitted as that character; read in two chunks they are emitted as
    nothing, since each chunk fails as UTF-8 and is a lone GBK lead byte,
    which the fallback drops. *)
Lemma receive_output_split_counterexample :
  let split := [Recv [xc3]; Recv [xa9]] in
  let whole := [Recv [xc3; xa9]] in
  concat (received split) = concat (received whole)
  /\ (forall tbl, output_text (receive_output tbl whole) = [0xE9])
  /\ (forall tbl, output_text (receive_output tbl split) = [])
  /\ (forall tbl, Codec.decode tbl (concat (received split)) = [0xE9]).
Proof.
  cbv zeta. repeat split.
Qed.

Lemma decode_drops_undecodable_witness :
  let data := [x81; x7f; x41; xd6; xd0; xd6] in
  Codec.utf8_decode data = None
  /\ Codec.decode Codec.gbk_excerpt data = [0x7F; 0x41; 0x4E2D]
  /\ Forall (Codec.from_input_or_table Codec.gbk_excerpt data)
            (Codec.decode Codec.gbk_excerpt data).
Proof.
  cbv zeta. split; [reflexivity|]. split; [reflexivity|].
  apply (proj1 (proj2 (decode_drops_undecodable Codec.gbk_excerpt
    [x81; x7f; x41; xd6; xd0; xd6]))).
  reflexivity.
Defined.

(** C8 as stated fails: a chunk that is a lone lead byte decodes to the
    empty text, whatever the table, so the whole chunk is lost; and a byte
    the fallback cannot decode leaves no character in its place. *)
Lemma decode_loses_chunk_counterexample :
  Codec.utf8_decode [xc3] = None
  /\ (forall tbl, Codec.decode tbl [xc3] = [])
  /\ Codec.decode Codec.gbk_excerpt [xff; x41] = [0x41].
Proof.
  repeat split.
Qed.

Lemma flush_threshold_progress_witness :
  let before := [Recv [x6f; x6b; x0a; x3e]] in
  let pre := [Recv (repeat x61 60); NotReady] in
  let data := repeat x62 60 in
  existsb is_raise (before ++ pre) = false
  /\ loop Codec.gbk_excerpt [] (before ++ pre)
     = ([output_received (lit "ok" ++ [NL])], lit ">" ++ repeat 0x61 60)
  /\ loop Codec.gbk_excerpt [] (before ++ pre ++ [Recv data])
     = ([output_received (lit "ok" ++ [NL]);
         output_received (lit ">" ++ repeat 0x61 60 ++ repeat 0x62 60)], []).
Proof.
  cbv zeta. split; [reflexivity|].
  apply (proj1 (flush_threshold_progress Codec.gbk_excerpt
    [Recv [x6f; x6b; x0a; x3e]] [Recv (repeat x61 60); NotReady] []
    (repeat x62 60) [])).
  - reflexivity.
  - reflexivity.
  - apply Nat.leb_le. reflexivity.
  - apply Nat.ltb_lt. reflexivity.
Defined.

(** ** The write path and the command history *)

Lemma worker_send_command_connection (c : SSHConnection) (command : text)
  (io : send_result) :
  fst (SSHWorker.send_command c command io) = c.
Proof.
  unfold SSHWorker.send_command.
  destruct (shell c), (is_connected c), io; reflexivity.
Qed.

Lemma record_command_history (c : SSHConnection) (command : text) :
  history (fst (SSHTerminal.record_command c command))
  = if negb (text_eqb command []) && negb (mem command (history c))
    then history c ++ [command] else history c.
Proof.
  unfold SSHTerminal.record_command.
  destruct command as [|x command]; [reflexivity|].
  change (text_eqb (x :: command) []) with false. cbn [negb andb].
  destruct (mem (x :: command) (history c)); [reflexivity|].
  cbn [negb SSHTerminal.append_history completions].
  destruct (mem (x :: command) (completions c)); reflexivity.
Qed.

Lemma record_command_is_connected (c : SSHConnection) (command : text) :
  is_connected (fst (SSHTerminal.record_command c command)) = is_connected c.
Proof.
  unfold SSHTerminal.record_command.
  destruct command as [|x command]; [reflexivity|].
  destruct (mem (x :: command) (history c)); [reflexivity|].
  cbn [SSHTerminal.append_history completions].
  destruct (mem (x :: command) (completions c)); reflexivity.
Qed.

(** The connection after a submission: the one [record_command] leaves. *)
Lemma send_command_connection (w : SSHTerminal.t) (input : text) (io : send_result) :
  SSHTerminal.connection (fst (SSHTerminal.send_command w input io))
  = match SSHTerminal.strip input with
    | [] => SSHTerminal.connection w
    | _ :: _ =>
        if is_connected (SSHTerminal.connection w)
        then fst (SSHTerminal.record_command (SSHTerminal.connection w)
                                             (SSHTerminal.strip input))
        else SSHTerminal.connection w
    end.
Proof.
  unfold SSHTerminal.send_command.
  destruct (SSHTerminal.strip input) as [|x command]; [reflexivity|].
  destruct (is_connected (SSHTerminal.connection w)); [|reflexivity].
  cbn [negb].
  destruct (SSHTerminal.record_command (SSHTerminal.connection w) (x :: command))
    as [c recorded].
  destruct (SSHTerminal.worker w); cbn [fst]; [|reflexivity].
  pose proof (worker_send_command_connection c (x :: command) io) as E.
  destruct (SSHWorker.send_command c (x :: command) io) as [c' sent].
  cbn [fst] in *. now subst.
Qed.

Lemma send_command_history (w : SSHTerminal.t) (input : text) (io : send_result) :
  history (SSHTerminal.connection (fst (SSHTerminal.send_command w input io)))
  = if negb (text_eqb (SSHTerminal.strip input) [])
       && is_connected (SSHTerminal.connection w)
       && negb (mem (SSHTerminal.strip input) (history (SSHTerminal.connection w)))
    then history (SSHTerminal.connection w) ++ [SSHTerminal.strip input]
    else history (SSHTerminal.connection w).
Proof.
  rewrite send_command_connection.
  destruct (SSHTerminal.strip input) as [|x command] eqn:E; [reflexivity|].
  destruct (is_connected (SSHTerminal.connection w)); [|reflexivity].
  rewrite record_command_history. reflexivity.
Qed.

Lemma NoDup_snoc (xs : list text) (x : text) :
  NoDup xs -> ~ In x xs -> NoDup (xs ++ [x]).
Proof.
  intros H Hx. apply NoDup_app; [assumption | repeat constructor; auto|].
  intros a Ha [<-|[]]. contradiction.
Qed.

Lemma send_command_NoDup (w : SSHTerminal.t) (input : text) (io : send_result) :
  NoDup (history (SSHTerminal.connection w)) ->
  NoDup (history (SSHTerminal.connection (fst (SSHTerminal.send_command w input io)))).
Proof.
  intros H. rewrite send_command_history.
  destruct (negb (text_eqb (SSHTerminal.strip input) [])); [|assumption].
  destruct (is_connected (SSHTerminal.connection w)); [|assumption].
  destruct (mem (SSHTerminal.strip input) (history (SSHTerminal.connection w))) eqn:M;
    [assumption|].
  cbn. apply NoDup_snoc; [assumption | now apply mem_not_In].
Qed.

Lemma submit_NoDup (inputs : list (text * send_result)) : forall w,
  NoDup (history (SSHTerminal.connection w)) ->
  NoDup (history (SSHTerminal.connection (SSHTerminal.submit w inputs))).
Proof.
  induction inputs as [|[input io] inputs IH]; intros w H; cbn; [assumption|].
  apply IH, send_command_NoDup, H.
Qed.

(** In a list without repetition, neighbours differ. *)
Lemma NoDup_adjacent (xs : list text) (i : nat) (x y : text) :
  NoDup xs -> nth_error xs i = Some x -> nth_error xs (S i) = Some y -> x <> y.
Proof.
  intros H. revert i. induction H as [|a xs Ha H IH]; intros i Hx Hy.
  - destruct i; discriminate.
  - destruct i as [|i]; cbn in Hx, Hy.
    + injection Hx as <-. intros ->. apply Ha.
      destruct xs; [discriminate|]. cbn in Hy. injection Hy as <-. now left.
    + eapply IH; eassumption.
Qed.

(** C2, as amended.  A submission appends the stripped command to the
    history exactly when it is not empty, the session is connected and the
    command occurs nowhere in the history yet.  Hence a history that starts
    empty never holds the same command twice, at neighbouring places or any
    others, and submitting a command a second time in a row leaves the
    history as the first submission left it. *)
Theorem history_skips_known_commands (w : SSHTerminal.t) (input : text)
  (io io' : send_result) (inputs : list (text * send_result)) :
  let command := SSHTerminal.strip input in
  let h := history (SSHTerminal.connection w) in
  let w' := fst (SSHTerminal.send_command w input io) in
  history (SSHTerminal.connection w')
  = (if negb (text_eqb command []) && is_connected (SSHTerminal.connection w)
        && negb (mem command h)
     then h ++ [command] else h)
  /\ history (SSHTerminal.connection (fst (SSHTerminal.send_command w' input io')))
     = history (SSHTerminal.connection w')
  /\ (h = [] ->
      let final := history (SSHTerminal.connection (SSHTerminal.submit w inputs)) in
      NoDup final
      /\ forall i x y, nth_error final i = Some x ->
                       nth_error final (S i) = Some y -> x <> y).
Proof.
  cbv zeta. split; [apply send_command_history|]. split.
  - rewrite (send_command_history _ input io').
    rewrite send_command_connection at 1.
    rewrite send_command_history.
    destruct (SSHTerminal.strip input) as [|x command] eqn:E; [reflexivity|].
    change (negb (text_eqb (x :: command) [])) with true. cbn [andb].
    destruct (is_connected (SSHTerminal.connection w)) eqn:C; cbn [andb].
    + rewrite record_command_is_connected, C.
      destruct (mem (x :: command) (history (SSHTerminal.connection w))) eqn:M;
        cbn [negb]; [now rewrite M|].
      match goal with
      | |- context [mem ?a ?b] =>
          replace (mem a b) with true
            by (symmetry; apply mem_In, in_or_app; right; now left)
      end.
      reflexivity.
    + rewrite C. reflexivity.
  - intros Hh.
    assert (N : NoDup (history (SSHTerminal.connection (SSHTerminal.submit w inputs)))).
    { apply submit_NoDup. rewrite Hh. constructor. }
    split; [exact N|]. intros i x y. now apply NoDup_adjacent.
Qed.

Lemma history_skips_known_commands_witness :
  let w := SSHTerminal.connected (lit "10.236.165.25") (lit "root") (lit "root") 22 in
  let inputs := [(lit "ls", Sent); (lit " ls ", Sent); (lit "pwd", SendRaises []);
                 (lit "ls", Sent)] in
  history (SSHTerminal.connection w) = []
  /\ history (SSHTerminal.connection (SSHTerminal.submit w inputs))
     = [lit "ls"; lit "pwd"]
  /\ NoDup (history (SSHTerminal.connection (SSHTerminal.submit w inputs))).
Proof.
  cbv zeta. split; [reflexivity|]. split; [reflexivity|].
  apply (proj2 (proj2 (history_skips_known_commands
    (SSHTerminal.connected (lit "10.236.165.25") (lit "root") (lit "root") 22)
    [] Sent Sent
    [(lit "ls", Sent); (lit " ls ", Sent); (lit "pwd", SendRaises []);
     (lit "ls", Sent)]))).
  reflexivity.
Defined.

(** C2 as stated fails: after A, then B, then A again the history is
    [A; B], not [A; B; A], although the third command differs from the last
    entry. *)
Lemma history_counterexample :
  let w := SSHTerminal.connected (lit "10.236.165.25") (lit "root") (lit "root") 22 in
  let w2 := SSHTerminal.submit w [(lit "ls", Sent); (lit "pwd", Sent)] in
  history (SSHTerminal.connection w2) = [lit "ls"; lit "pwd"]
  /\ text_eqb (lit "ls") (lit "pwd") = false
  /\ history (SSHTerminal.connection (fst (SSHTerminal.send_command w2 (lit "ls") Sent)))
     = [lit "ls"; lit "pwd"].
Proof.
  cbv zeta. repeat split.
Qed.

Lemma record_command_shell (c : SSHConnection) (command : text) :
  shell (fst (SSHTerminal.record_command c command)) = shell c.
Proof.
  unfold SSHTerminal.record_command.
  destruct command as [|x command]; [reflexivity|].
  destruct (mem (x :: command) (history c)); [reflexivity|].
  cbn [SSHTerminal.append_history completions].
  destruct (mem (x :: command) (completions c)); reflexivity.
Qed.

Lemma record_command_effects (c : SSHConnection) (command : text) :
  filter SSHTerminal.is_worker_effect (snd (SSHTerminal.record_command c command)) = [].
Proof.
  unfold SSHTerminal.record_command.
  destruct command as [|x command]; [reflexivity|].
  destruct (mem (x :: command) (history c)); [reflexivity|].
  cbn [SSHTerminal.append_history completions].
  destruct (mem (x :: command) (completions c)); reflexivity.
Qed.

(** C7.  On a connected session whose channel is open, a write that raises
    makes the worker emit one error event and nothing else, and leaves the
    connection as it was.  For the controller: the submission emits that one
    error event and writes nothing, the session is still connected, and its
    state is the one a successful write would have left. *)
Theorem send_failure_is_not_fatal (w : SSHTerminal.t) (input e : text) (h : handle) :
  let c := SSHTerminal.connection w in
  let result := SSHTerminal.send_command w input (SendRaises e) in
  let failed := error_occurred (lit "Failed to send command: " ++ e) in
  is_connected c = true ->
  shell c = Some h ->
  SSHTerminal.worker w = true ->
  SSHTerminal.strip input <> [] ->
  SSHWorker.send_command c (SSHTerminal.strip input) (SendRaises e)
  = (c, [emit failed])
  /\ filter SSHTerminal.is_worker_effect (snd result)
     = [SSHTerminal.worker_effect (emit failed)]
  /\ is_connected (SSHTerminal.connection (fst result)) = true
  /\ fst result = fst (SSHTerminal.send_command w input Sent).
Proof.
  cbv zeta. intros C S W I.
  split.
  { unfold SSHWorker.send_command. now rewrite S, C. }
  unfold SSHTerminal.send_command.
  destruct (SSHTerminal.strip input) as [|x command] eqn:E; [congruence|].
  rewrite C, W. cbn [negb].
  pose proof (record_command_is_connected (SSHTerminal.connection w) (x :: command)) as RC.
  pose proof (record_command_shell (SSHTerminal.connection w) (x :: command)) as RS.
  pose proof (record_command_effects (SSHTerminal.connection w) (x :: command)) as RE.
  destruct (SSHTerminal.record_command (SSHTerminal.connection w) (x :: command))
    as [c' recorded].
  cbn [fst snd] in RC, RS, RE. unfold SSHWorker.send_command.
  rewrite RS, S, RC, C.
  cbn [fst snd SSHTerminal.connection map].
  split; [|split; [congruence | reflexivity]].
  rewrite !filter_app, RE. reflexivity.
Qed.

Lemma send_failure_is_not_fatal_witness :
  let w := SSHTerminal.connected (lit "10.236.165.25") (lit "root") (lit "root") 22 in
  let result := SSHTerminal.send_command w (lit " ls -l ") (SendRaises (lit "Socket is closed")) in
  is_connected (SSHTerminal.connection w) = true
  /\ is_connected (SSHTerminal.connection (fst result)) = true
  /\ filter SSHTerminal.is_worker_effect (snd result)
     = [SSHTerminal.worker_effect
          (emit (error_occurred (lit "Failed to send command: Socket is closed")))].
Proof.
  cbv zeta. split; [reflexivity|].
  pose proof (send_failure_is_not_fatal
    (SSHTerminal.connected (lit "10.236.165.25") (lit "root") (lit "root") 22)
    (lit " ls -l ") (lit "Socket is closed") 1%nat
    eq_refl eq_refl eq_refl ltac:(discriminate)) as H.
  split; [apply H | apply H].
Defined.

(** ** The telemetry buffer *)

Import DataVisualizer.

Lemma append_spec (w : t) (x : WS.WebSocketData) :
  (length (data_buffer w) <= max_data_points w)%nat ->
  data_buffer (append w x)
  = skipn (length (data_buffer w ++ [x]) - max_data_points w) (data_buffer w ++ [x])
  /\ max_data_points (append w x) = max_data_points w
  /\ (length (data_buffer (append w x)) <= max_data_points w)%nat.
Proof.
  intros H. unfold append.
  assert (L : length (data_buffer w ++ [x]) = S (length (data_buffer w))).
  { rewrite length_app. cbn. lia. }
  destruct (max_data_points w <? length (data_buffer w ++ [x]))%nat eqn:E.
  - apply Nat.ltb_lt in E. cbn [data_buffer max_data_points set_buffer].
    replace (length (data_buffer w ++ [x]) - max_data_points w)%nat with 1%nat by lia.
    repeat split.
    destruct (data_buffer w ++ [x]) as [|y l] eqn:B; cbn in *; lia.
  - apply Nat.ltb_ge in E. cbn [data_buffer max_data_points set_buffer].
    replace (length (data_buffer w ++ [x]) - max_data_points w)%nat with 0%nat by lia.
    repeat split. lia.
Qed.

Lemma fold_append_spec (records : list WS.WebSocketData) : forall w,
  (length (data_buffer w) <= max_data_points w)%nat ->
  data_buffer (fold_left append records w)
  = skipn (length (data_buffer w ++ records) - max_data_points w)
          (data_buffer w ++ records)
  /\ max_data_points (fold_left append records w) = max_data_points w.
Proof.
  induction records as [|x records IH]; intros w H; cbn [fold_left].
  - rewrite app_nil_r.
    replace (length (data_buffer w) - max_data_points w)%nat with 0%nat by lia.
    split; reflexivity.
  - destruct (append_spec w x H) as (A1 & A2 & A3).
    destruct (IH (append w x)) as (I1 & I2); [lia|].
    rewrite I1, I2, A1, A2. split; [|reflexivity].
    set (k := (length (data_buffer w ++ [x]) - max_data_points w)%nat).
    assert (K : (k <= length (data_buffer w ++ [x]))%nat) by (unfold k; lia).
    replace (data_buffer w ++ x :: records) with ((data_buffer w ++ [x]) ++ records)
      by (now rewrite <- app_assoc).
    replace (skipn k (data_buffer w ++ [x]) ++ records)
      with (skipn k ((data_buffer w ++ [x]) ++ records)).
    + rewrite skipn_skipn. f_equal.
      rewrite length_skipn, !length_app. unfold k. rewrite length_app. cbn. lia.
    + rewrite skipn_app.
      replace (k - length (data_buffer w ++ [x]))%nat with 0%nat by lia.
      reflexivity.
Qed.

(** Messages that decode to objects are appended like their records. *)
Lemma receive_objects (v : variant) (objects : list (list (text * pyval) * pyval)) :
  forall w,
  fst (fst (receive v w (map (fun o => {| json_loads := Loaded (PDict (fst o));
                                          now := snd o |}) objects)))
  = fold_left append (map (fun o => make_record (fst o) (snd o)) objects) w.
Proof.
  induction objects as [|[items t0] objects IH]; intros w; [reflexivity|].
  cbn [map receive on_message json_loads now fst snd fold_left].
  specialize (IH (append w (make_record items t0))).
  destruct (receive v (append w (make_record items t0)) _) as [[w'' evs'] ok'].
  exact IH.
Qed.

(** C4.  Appending records to a buffer that is within its capacity leaves
    exactly the last [max_data_points] of all the records, in arrival order,
    so its length never exceeds the capacity; the client does this for the
    messages it decodes; and from the empty buffer of capacity 100, after
    150 records the buffer has length 100 and starts with record number
    50. *)
Theorem ring_buffer_keeps_last (w : t) (records : list WS.WebSocketData)
  (v : variant) (objects : list (list (text * pyval) * pyval)) :
  let all := data_buffer w ++ records in
  let w' := fold_left append records w in
  ((length (data_buffer w) <= max_data_points w)%nat ->
   data_buffer w' = skipn (length all - max_data_points w) all
   /\ (length (data_buffer w') <= max_data_points w)%nat
   /\ max_data_points w' = max_data_points w)
  /\ data_buffer (fst (fst (receive v init
       (map (fun o => {| json_loads := Loaded (PDict (fst o)); now := snd o |})
            objects))))
     = skipn (length objects - 100)
             (map (fun o => make_record (fst o) (snd o)) objects)
  /\ (length records = 150%nat ->
      length (data_buffer (fold_left append records init)) = 100%nat
      /\ nth_error (data_buffer (fold_left append records init)) 0
         = nth_error records 50).
Proof.
  cbv zeta. split; [|split].
  - intros H. destruct (fold_append_spec records w H) as (F1 & F2).
    rewrite F1, F2. repeat split.
    rewrite length_skipn. lia.
  - rewrite receive_objects.
    destruct (fold_append_spec (map (fun o => make_record (fst o) (snd o)) objects)
                init (Nat.le_0_l _)) as (F1 & _).
    rewrite F1. cbn [data_buffer init max_data_points app]. now rewrite length_map.
  - intros L.
    destruct (fold_append_spec records init (Nat.le_0_l _)) as (F1 & _).
    rewrite F1. cbn [data_buffer init max_data_points app]. rewrite L.
    change (150 - 100)%nat with 50%nat. split.
    + rewrite length_skipn. lia.
    + rewrite nth_error_skipn. f_equal.
Qed.

Lemma ring_buffer_keeps_last_witness :
  let records := map (fun n => {| WS.timestamp := PNum (inject_Z (Z.of_nat n));
                                   WS.variables := PDict [] |}) (seq 0 150) in
  length records = 150%nat
  /\ length (data_buffer (fold_left append records init)) = 100%nat
  /\ nth_error (data_buffer (fold_left append records init)) 0
     = Some {| WS.timestamp := PNum (inject_Z 50); WS.variables := PDict [] |}.
Proof.
  cbv zeta. split; [reflexivity|].
  pose proof (proj2 (proj2 (ring_buffer_keeps_last init
    (map (fun n => {| WS.timestamp := PNum (inject_Z (Z.of_nat n));
                      WS.variables := PDict [] |}) (seq 0 150))
    ui04 [])) eq_refl) as H.
  split; [apply H|]. etransitivity; [apply H|]. reflexivity.
Defined.

(** ** The subscription loop *)

Lemma quiet_app (a b : list effect) : quiet a -> quiet b -> quiet (a ++ b).
Proof.
  unfold quiet. intros [A1 A2] [B1 B2]. rewrite !filter_app, A1, A2, B1, B2.
  split; reflexivity.
Qed.

Lemma on_message_quiet (v : variant) (w : t) (m : message) :
  quiet (snd (fst (on_message v w m))).
Proof.
  unfold on_message.
  destruct (json_loads m) as [[| | | | |items]| |]; try destruct v; split; reflexivity.
Qed.

(** Receiving messages neither sleeps nor marks the client disconnected. *)
Lemma receive_quiet (v : variant) (msgs : list message) : forall w,
  quiet (snd (fst (receive v w msgs))).
Proof.
  induction msgs as [|m msgs IH]; intros w; cbn [receive].
  - split; reflexivity.
  - pose proof (on_message_quiet v w m) as Q.
    destruct (on_message v w m) as [[w' evs] ok]. cbn [fst snd] in Q.
    destruct ok; [|exact Q].
    specialize (IH w').
    destruct (receive v w' msgs) as [[w'' evs'] ok']. cbn [fst snd] in *.
    now apply quiet_app.
Qed.

Lemma pass_raises (v : variant) (w : t) (a : attempt) :
  snd (pass v w a)
  = match a with
    | ConnectRaises => []
    | Opened msgs _ => set_status Connected :: snd (fst (receive v w msgs))
    end ++ (if raises v w a then retry else []).
Proof.
  destruct a as [|msgs fin]; [reflexivity|].
  unfold pass, raises.
  destruct (receive v w msgs) as [[w' evs] ok]. reflexivity.
Qed.

Lemma pass_sleeps (v : variant) (w : t) (a : attempt) :
  length (filter is_sleep (snd (pass v w a))) = (if raises v w a then 1 else 0)%nat
  /\ length (filter is_retry_mark (snd (pass v w a)))
     = (if raises v w a then 1 else 0)%nat.
Proof.
  rewrite pass_raises, !filter_app.
  assert (Q : quiet match a with
                    | ConnectRaises => []
                    | Opened msgs _ => set_status Connected :: snd (fst (receive v w msgs))
                    end).
  { destruct a as [|msgs fin]; [split; reflexivity|].
    destruct (receive_quiet v msgs w) as [Q1 Q2]. split; cbn; assumption. }
  destruct Q as [Q1 Q2]. rewrite Q1, Q2.
  destruct (raises v w a); split; reflexivity.
Qed.

Lemma websocket_client_cons (v : variant) (w : t) (a : attempt) (rest : list attempt) :
  websocket_client v w (a :: rest)
  = (fst (websocket_client v (fst (pass v w a)) rest),
     snd (pass v w a) ++ snd (websocket_client v (fst (pass v w a)) rest)).
Proof.
  cbn [websocket_client].
  destruct (pass v w a) as [w' evs]. cbn [fst snd].
  destruct (websocket_client v w' rest) as [w'' evs']. reflexivity.
Qed.

Lemma websocket_client_sleeps (v : variant) (attempts : list attempt) : forall w,
  length (filter is_sleep (snd (websocket_client v w attempts))) = failures v w attempts
  /\ length (filter is_retry_mark (snd (websocket_client v w attempts)))
     = failures v w attempts.
Proof.
  induction attempts as [|a rest IH]; intros w; [split; reflexivity|].
  rewrite websocket_client_cons. cbn [snd failures].
  rewrite !filter_app, !length_app.
  destruct (pass_sleeps v w a) as [P1 P2].
  destruct (IH (fst (pass v w a))) as [I1 I2].
  rewrite P1, P2, I1, I2. split; reflexivity.
Qed.

(** Any number of failed connection attempts in a row: each is followed by
    the mark and the wait, and the state is untouched. *)
Lemma websocket_client_retries (v : variant) (w : t) (n : nat) :
  websocket_client v w (repeat ConnectRaises n) = (w, concat (repeat retry n)).
Proof.
  induction n as [|n IH]; [reflexivity|].
  cbn [repeat]. rewrite websocket_client_cons. cbn [pass fst snd].
  rewrite IH. reflexivity.
Qed.

(** C5, as amended.  A pass of the loop that raises (the connection attempt
    fails, the stream ends with an error, or a message lets an exception
    out) ends with the "disconnected, retrying" mark followed by the
    3-second wait, and the loop goes on with the next attempt; a pass whose
    stream ends normally has no mark and no wait before the next attempt.
    In any run the waits, and the marks, are as many as the raising passes,
    however many there are: [n] failed attempts in a row give [n] marks and
    [n] waits, for every [n].  When the first attempt raises and the second
    opens, the trace starts: mark, wait of 3, connected. *)
Theorem reconnect_after_failure (v : variant) (w : t) (a : attempt)
  (rest : list attempt) (msgs : list message) (fin : stream_end) (n : nat) :
  (raises v w a = true -> exists evs, snd (pass v w a) = evs ++ retry /\ quiet evs)
  /\ (raises v w a = false -> quiet (snd (pass v w a)))
  /\ snd (websocket_client v w (a :: rest))
     = snd (pass v w a) ++ snd (websocket_client v (fst (pass v w a)) rest)
  /\ length (filter is_sleep (snd (websocket_client v w (a :: rest))))
     = failures v w (a :: rest)
  /\ length (filter is_retry_mark (snd (websocket_client v w (a :: rest))))
     = failures v w (a :: rest)
  /\ snd (websocket_client v w (repeat ConnectRaises n)) = concat (repeat retry n)
  /\ exists tail,
       snd (websocket_client v w [ConnectRaises; Opened msgs fin])
       = [set_status DisconnectedRetrying; sleep 3; set_status Connected] ++ tail.
Proof.
  assert (Q : quiet match a with
                    | ConnectRaises => []
                    | Opened msgs _ => set_status Connected :: snd (fst (receive v w msgs))
                    end).
  { destruct a as [|ms f]; [split; reflexivity|].
    destruct (receive_quiet v ms w) as [Q1 Q2]. split; cbn; assumption. }
  split; [|split; [|split; [|split; [|split; [|split]]]]].
  - intros R. rewrite pass_raises, R. eexists. split; [reflexivity | exact Q].
  - intros R. rewrite pass_raises, R, app_nil_r. exact Q.
  - now rewrite websocket_client_cons.
  - apply websocket_client_sleeps.
  - apply websocket_client_sleeps.
  - now rewrite websocket_client_retries.
  - rewrite websocket_client_cons. cbn [pass fst snd].
    rewrite websocket_client_cons, pass_raises. cbn [snd retry app].
    eexists. reflexivity.
Qed.

Lemma reconnect_after_failure_witness :
  let m := {| json_loads := Loaded (PDict [(lit "timestamp", PNum 1)]); now := PNum 0 |} in
  raises websockui init ConnectRaises = true
  /\ snd (websocket_client websockui init
            [ConnectRaises; Opened [m] StreamRaises; Opened [] EndOfStream])
     = [set_status DisconnectedRetrying; sleep 3;
        set_status Connected; data_updated (make_record [(lit "timestamp", PNum 1)] (PNum 0));
        set_status DisconnectedRetrying; sleep 3;
        set_status Connected]
  /\ exists evs, snd (pass websockui init ConnectRaises) = evs ++ retry /\ quiet evs.
Proof.
  cbv zeta. split; [reflexivity|]. split; [reflexivity|].
  apply (proj1 (reconnect_after_failure websockui init ConnectRaises [] [] EndOfStream 0)).
  reflexivity.
Defined.

(** C5 as stated fails: when the stream of an open connection ends normally
    the pass ends with neither the "disconnected, retrying" mark nor the
    wait, and the next attempt follows at once, in both files. *)
Lemma normal_stream_end_counterexample :
  snd (websocket_client ui04 init [Opened [] EndOfStream; Opened [] EndOfStream])
  = [set_status Connected; set_status Connected]
  /\ snd (websocket_client websockui init [Opened [] EndOfStream; Opened [] EndOfStream])
     = [set_status Connected; set_status Connected].
Proof.
  split; reflexivity.
Qed.

(** ** Malformed messages *)

Lemma receive_ui04_continues (msgs : list message) : forall w,
  snd (receive ui04 w msgs) = true.
Proof.
  induction msgs as [|m msgs IH]; intros w; [reflexivity|].
  cbn [receive]. unfold on_message.
  destruct (json_loads m) as [[| | | | |items]| |];
    match goal with
    | |- context [receive ui04 ?w' msgs] =>
        specialize (IH w'); destruct (receive ui04 w' msgs) as [[w'' evs'] ok'];
        exact IH
    end.
Qed.

(** Undecodable messages leave no trace: a stream and the same stream
    without them are received alike. *)
Lemma receive_skips_undecodable (v : variant) (msgs : list message) : forall w,
  receive v w msgs = receive v w (filter decodable msgs).
Proof.
  induction msgs as [|m msgs IH]; intros w; [reflexivity|].
  cbn [filter]. unfold decodable at 1.
  destruct (json_loads m) as [d| |] eqn:E.
  - cbn [receive]. destruct (on_message v w m) as [[w' evs] ok].
    destruct ok; [|reflexivity]. now rewrite IH.
  - rewrite <- IH. cbn [receive]. unfold on_message. rewrite E.
    destruct (receive v w msgs) as [[w'' evs'] ok']. reflexivity.
  - cbn [receive]. destruct (on_message v w m) as [[w' evs] ok].
    destruct ok; [|reflexivity]. now rewrite IH.
Qed.

(** C6, as amended.  A message whose text is not JSON (the decoder raises
    its decode error) is dropped without a trace in both files: the buffer
    and the rest of the state are unchanged, nothing is emitted, and the
    loop goes on with the next message, so a stream is received exactly as
    it would be without such messages.  In ui04.py every other message whose
    processing raises is dropped too, with a printed diagnostic: one on
    which the decoder raises another exception, and one that decodes to a
    value that is not an object; there no message ever ends the receive
    loop.  In websockui.py such a message leaves the buffer unchanged as
    well, but its exception leaves the receive loop.  A decoded object is
    appended as a record, whatever its fields hold. *)
Theorem malformed_message_dropped (v : variant) (w : t) (m : message)
  (msgs : list message) (d : pyval) (items : list (text * pyval)) :
  (json_loads m = JSONDecodeError ->
   on_message v w m = (w, [], true)
   /\ receive v w (m :: msgs) = receive v w msgs)
  /\ receive v w msgs = receive v w (filter decodable msgs)
  /\ (json_loads m = LoadsError ->
      on_message ui04 w m = (w, [print_error], true))
  /\ (json_loads m = Loaded d ->
      (forall its, d <> PDict its) ->
      on_message ui04 w m = (w, [print_error], true))
  /\ snd (receive ui04 w msgs) = true
  /\ (json_loads m = LoadsError ->
      on_message websockui w m = (w, [], false))
  /\ (json_loads m = Loaded d ->
      (forall its, d <> PDict its) ->
      on_message websockui w m = (w, [], false))
  /\ (json_loads m = Loaded (PDict items) ->
      on_message v w m
      = (append w (make_record items (now m)),
         [data_updated (make_record items (now m))], true)).
Proof.
  split; [|split; [|split; [|split; [|split; [|split; [|split]]]]]].
  - intros E. split.
    + unfold on_message. now rewrite E.
    + cbn [receive]. unfold on_message. rewrite E.
      destruct (receive v w msgs) as [[w'' evs'] ok']. reflexivity.
  - apply receive_skips_undecodable.
  - intros E. unfold on_message. now rewrite E.
  - intros E N. unfold on_message. rewrite E.
    destruct d as [| | | | |its]; try reflexivity.
    now destruct (N its).
  - apply receive_ui04_continues.
  - intros E. unfold on_message. now rewrite E.
  - intros E N. unfold on_message. rewrite E.
    destruct d as [| | | | |its]; try reflexivity.
    now destruct (N its).
  - intros E. unfold on_message. now rewrite E.
Qed.

Lemma malformed_message_dropped_witness :
  let bad := {| json_loads := JSONDecodeError; now := PNum 7 |} in
  let binary := {| json_loads := LoadsError; now := PNum 7 |} in
  let list_msg := {| json_loads := Loaded (PList [PNum 1; PNum 2]); now := PNum 8 |} in
  json_loads bad = JSONDecodeError
  /\ on_message websockui init bad = (init, [], true)
  /\ on_message ui04 init binary = (init, [print_error], true)
  /\ on_message ui04 init list_msg = (init, [print_error], true).
Proof.
  cbv zeta. split; [reflexivity|].
  pose proof (malformed_message_dropped websockui init
                {| json_loads := JSONDecodeError; now := PNum 7 |} [] PNone []) as H1.
  pose proof (malformed_message_dropped ui04 init
                {| json_loads := LoadsError; now := PNum 7 |} [] PNone []) as H2.
  pose proof (malformed_message_dropped ui04 init
                {| json_loads := Loaded (PList [PNum 1; PNum 2]); now := PNum 8 |}
                [] (PList [PNum 1; PNum 2]) []) as H3.
  split; [|split].
  - apply (proj1 H1). reflexivity.
  - apply (proj1 (proj2 (proj2 H2))). reflexivity.
  - apply (proj1 (proj2 (proj2 (proj2 H3)))); [reflexivity | discriminate].
Defined.

(** C6 as stated fails: a message that decodes to an object of the wrong
    structure (a string for the timestamp, a number for the variable map) is
    not dropped; it is appended to the buffer as it is, in both files. *)
Lemma ill_typed_record_counterexample :
  let m := {| json_loads := Loaded (PDict [(lit "timestamp", PStr (lit "soon"));
                                         (lit "variables", PNum 5)]);
              now := PNum 0 |} in
  let r := {| WS.timestamp := PStr (lit "soon"); WS.variables := PNum 5 |} in
  WS.well_typed r = false
  /\ data_buffer (fst (fst (on_message ui04 init m))) = [r]
  /\ data_buffer (fst (fst (on_message websockui init m))) = [r].
Proof.
  cbv zeta. repeat split.
Qed.

(** In websockui.py a decoded value that is not an object lets its
    exception out of the receive loop: the messages after it are not read
    and the pass ends in the outer handler. *)
Example websockui_non_object_ends_stream :
  let list_msg := {| json_loads := Loaded (PList [PNum 1; PNum 2]); now := PNum 8 |} in
  let next := {| json_loads := Loaded (PDict []); now := PNum 9 |} in
  pass websockui init (Opened [list_msg; next] EndOfStream)
  = (init, [set_status Connected; set_status DisconnectedRetrying; sleep 3])
  /\ data_buffer (fst (pass ui04 init (Opened [list_msg; next] EndOfStream)))
     = [make_record [] (PNum 9)].
Proof.
  split; reflexivity.
Qed.

(** ** The plot projection *)

Lemma last_map_Some (A : Type) (front : list A) (x : A) :
  last (map Some (front ++ [x])) None = Some x.
Proof.
  rewrite map_app. cbn [map]. apply last_last.
Qed.

Lemma dict_get_lookup (items : list (text * pyval)) (key : text) (default : pyval) :
  dict_get items key default
  = match lookup items key with Some y => y | None => default end.
Proof. reflexivity. Qed.

Lemma series_value_or_zero (var : text) (buffer : list WS.WebSocketData) :
  forallb has_dict buffer = true ->
  series var buffer = Some (map (value_or_zero var) buffer).
Proof.
  induction buffer as [|d buffer IH]; [reflexivity|].
  cbn [forallb]. intros H. apply andb_true_iff in H as [Hd Hr].
  cbn [series map]. rewrite (IH Hr).
  unfold get_var, value_or_zero, has_dict in *.
  destruct (WS.variables d); try discriminate. reflexivity.
Qed.


Lemma comprehension_fold (buffer : list WS.WebSocketData) (vars : list text) :
  vars = [] \/ forallb has_dict buffer = true ->
  forall acc,
  comprehension acc vars buffer
  = Some (fold_left (fun a var => dict_set a var (map (value_or_zero var) buffer))
                    vars acc).
Proof.
  intros [->|H]; [reflexivity|].
  induction vars as [|var vars IH]; intros acc; [reflexivity|].
  cbn [comprehension fold_left]. rewrite (series_value_or_zero var buffer H).
  apply IH.
Qed.




Section Comprehension.

Variable f : text -> list pyval.



End Comprehension.

Lemma list_text_eqb_eq (a b : list text) : list_text_eqb a b = true -> a = b.
Proof.
  unfold list_text_eqb.
  destruct (list_eq_dec (list_eq_dec N.eq_dec) a b); congruence.
Qed.




(** * Further properties *)

(** ** The reader *)

Lemma utf8_run_ascii (data : bytes) :
  forallb is_ascii data = true ->
  Codec.utf8_run Codec.Start data = Some (Codec.Start, map to_N data).
Proof.
  induction data as [|b data IH]; [reflexivity|].
  cbn [forallb]. intros H. apply andb_true_iff in H as [Hb Hr].
  cbn [Codec.utf8_run Codec.utf8_step map]. unfold Codec.utf8_lead.
  unfold is_ascii in Hb. rewrite Hb, (IH Hr). reflexivity.
Qed.

Lemma decode_ascii (tbl : N -> N -> option N) (data : bytes) :
  forallb is_ascii data = true -> Codec.decode tbl data = map to_N data.
Proof.
  intros H. apply decode_utf8, utf8_decode_Some, utf8_run_ascii, H.
Qed.

Lemma concat_decode_ascii (tbl : N -> N -> option N) (chunks : list bytes) :
  forallb (forallb is_ascii) chunks = true ->
  concat (map (Codec.decode tbl) chunks) = map to_N (concat chunks).
Proof.
  induction chunks as [|c chunks IH]; [reflexivity|].
  cbn [forallb]. intros H. apply andb_true_iff in H as [Hc Hr].
  cbn [map concat]. rewrite map_app, (decode_ascii tbl c Hc), (IH Hr). reflexivity.
Qed.

(** X1.  A run that reads only bytes below 0x80 emits exactly those bytes,
    as characters, however they were split into chunks. *)
Theorem ascii_stream_is_reassembled (tbl : N -> N -> option N) (script : list poll) :
  forallb (forallb is_ascii) (received script) = true ->
  output_text (receive_output tbl script) = map to_N (concat (received script)).
Proof.
  intros H. rewrite output_text_receive_output. now apply concat_decode_ascii.
Qed.

Lemma ascii_stream_is_reassembled_witness :
  let script := [Recv [x6c; x73]; NotReady; Recv [x0a; x24; x20]] in
  forallb (forallb is_ascii) (received script) = true
  /\ output_text (receive_output Codec.gbk_excerpt script) = lit "ls" ++ [NL] ++ lit "$ ".
Proof.
  cbv zeta. split; [reflexivity|].
  apply (ascii_stream_is_reassembled Codec.gbk_excerpt
           [Recv [x6c; x73]; NotReady; Recv [x0a; x24; x20]]).
  reflexivity.
Defined.

Lemma emit_lines_shape (fuel : nat) : forall buffer,
  Forall well_shaped (fst (emit_lines fuel buffer)).
Proof.
  induction fuel as [|fuel IH]; intros buffer; cbn [emit_lines]; [constructor|].
  destruct (has_newline buffer) eqn:Hn; [|constructor].
  destruct (split_newline_spec buffer Hn) as (_ & H2 & _).
  destruct (split_newline buffer) as [line tail]. cbn [fst snd] in H2.
  specialize (IH tail). destruct (emit_lines fuel tail) as [evs buffer'].
  cbn [fst] in *. constructor; [|exact IH].
  left. exists line. split; [reflexivity | exact H2].
Qed.

Lemma flush_long_shape (buffer : text) :
  has_newline buffer = false -> Forall well_shaped (fst (flush_long buffer)).
Proof.
  intros Hn. unfold flush_long. destruct buffer as [|c rest]; [constructor|].
  destruct (threshold <? length (c :: rest))%nat eqn:E; [|constructor].
  constructor; [|constructor]. right. split; [exact Hn | now apply Nat.ltb_lt].
Qed.

Lemma on_data_shape (tbl : N -> N -> option N) (buffer : text) (data : bytes) :
  Forall well_shaped (fst (on_data tbl buffer data)).
Proof.
  unfold on_data.
  set (acc := buffer ++ Codec.decode tbl data).
  pose proof (emit_lines_shape (length acc) acc) as S1.
  destruct (emit_lines_spec (length acc) acc (le_n _)) as (_ & E2 & _).
  destruct (emit_lines (length acc) acc) as [lines b1]. cbn [fst snd] in *.
  pose proof (flush_long_shape b1 E2) as S2.
  destruct (flush_long b1) as [long b2]. cbn [fst] in *.
  apply Forall_app. split; assumption.
Qed.

(** X2.  Every output event the loop emits is either one complete line (text
    without a newline, then the newline) or a flush of more than 100
    characters without a newline; no event holds a newline anywhere but at
    its end. *)
Theorem loop_events_are_lines_or_flushes (tbl : N -> N -> option N)
  (script : list poll) (buffer : text) :
  Forall well_shaped (fst (loop tbl buffer script)).
Proof.
  revert buffer. induction script as [|p script IH]; intros buffer;
    cbn [loop]; [constructor|].
  destruct p as [|data|e running].
  - apply IH.
  - pose proof (on_data_shape tbl buffer data) as S1.
    destruct (on_data tbl buffer data) as [evs buffer']. cbn [fst] in S1.
    specialize (IH buffer').
    destruct (loop tbl buffer' script) as [evs' final]. cbn [fst] in *.
    apply Forall_app. split; assumption.
  - destruct running; cbn [fst]; repeat constructor.
Qed.

Lemma loop_outputs_only (tbl : N -> N -> option N) (script : list poll) :
  forall buffer,
  existsb is_raise script = false ->
  forallb is_output (fst (loop tbl buffer script)) = true.
Proof.
  induction script as [|p script IH]; intros buffer H; [reflexivity|].
  cbn [existsb] in H. apply orb_false_iff in H as [Hp Hr].
  destruct p as [|data|e running]; cbn [loop]; [now apply IH| |discriminate].
  destruct (on_data_spec tbl buffer data) as (_ & _ & _ & D4).
  destruct (on_data tbl buffer data) as [evs buffer']. cbn [fst] in D4.
  specialize (IH buffer' Hr).
  destruct (loop tbl buffer' script) as [evs' final]. cbn [fst] in *.
  now rewrite forallb_app, D4, IH.
Qed.

(** The loop stops at the first pass that raises. *)
Lemma loop_until_raise (tbl : N -> N -> option N) (pre post : list poll)
  (e : text) (running : bool) : forall buffer,
  existsb is_raise pre = false ->
  loop tbl buffer (pre ++ Raise e running :: post)
  = (fst (loop tbl buffer pre)
     ++ (if running then [error_occurred (lit "Connection error: " ++ e)] else []),
     snd (loop tbl buffer pre)).
Proof.
  induction pre as [|p pre IH]; intros buffer H.
  - cbn. reflexivity.
  - cbn [existsb] in H. apply orb_false_iff in H as [Hp Hr].
    destruct p as [|data|e' running']; cbn [loop app]; [now apply IH| |discriminate].
    destruct (on_data tbl buffer data) as [evs buffer'].
    rewrite (IH buffer' Hr).
    destruct (loop tbl buffer' pre) as [evs' final]. cbn [fst snd].
    now rewrite app_assoc.
Qed.

Lemma filter_error_outputs (evs : list signal) :
  forallb is_output evs = true -> filter is_error evs = [].
Proof.
  induction evs as [|[s| |] evs IH]; cbn; try discriminate; auto.
Qed.

Lemma filter_error_flush_rest (buffer : text) :
  filter is_error (flush_rest buffer ++ [connection_closed]) = [].
Proof. destruct buffer; reflexivity. Qed.

(** X3.  A pass that raises ends the loop: the passes after it change
    nothing.  The run then holds one error event, "Connection error: ..."
    with the text of the exception, when [is_running] was still set, and
    none when the worker had been stopped; a run in which no pass raises
    holds no error event. *)
Theorem read_failure_ends_the_loop (tbl : N -> N -> option N)
  (pre post : list poll) (e : text) (running : bool) :
  existsb is_raise pre = false ->
  receive_output tbl (pre ++ Raise e running :: post)
  = receive_output tbl (pre ++ [Raise e running])
  /\ filter is_error (receive_output tbl (pre ++ Raise e running :: post))
     = (if running then [error_occurred (lit "Connection error: " ++ e)] else [])
  /\ filter is_error (receive_output tbl pre) = [].
Proof.
  intros H. unfold receive_output.
  rewrite !(loop_until_raise tbl pre _ e running [] H).
  pose proof (loop_outputs_only tbl pre [] H) as O.
  destruct (loop tbl [] pre) as [evs final]. cbn [fst snd] in *.
  split; [reflexivity|]. split.
  - rewrite filter_app, filter_error_flush_rest, app_nil_r.
    rewrite filter_app, (filter_error_outputs evs O). now destruct running.
  - rewrite filter_app, (filter_error_outputs evs O). apply filter_error_flush_rest.
Qed.

Lemma read_failure_ends_the_loop_witness :
  let pre := [Recv [x68; x69]; NotReady] in
  let post := [Recv [x0a]; Raise (lit "late") true] in
  existsb is_raise pre = false
  /\ receive_output Codec.gbk_excerpt (pre ++ Raise (lit "Socket is closed") true :: post)
     = [error_occurred (lit "Connection error: Socket is closed");
        output_received (lit "hi"); connection_closed].
Proof.
  cbv zeta. split; [reflexivity|].
  etransitivity.
  - apply (proj1 (read_failure_ends_the_loop Codec.gbk_excerpt
      [Recv [x68; x69]; NotReady] [Recv [x0a]; Raise (lit "late") true]
      (lit "Socket is closed") true eq_refl)).
  - reflexivity.
Defined.

(** ** The controller *)

Lemma lstrip_spaces (s : text) :
  forallb SSHTerminal.is_space s = true -> SSHTerminal.lstrip s = [].
Proof.
  induction s as [|c s IH]; [reflexivity|].
  cbn [forallb SSHTerminal.lstrip]. intros H.
  apply andb_true_iff in H as [Hc Hs]. rewrite Hc. now apply IH.
Qed.

(** X4.  A submission of an empty or all-whitespace input line, and any
    submission on a session that is not connected, does nothing: no echo,
    no write to the channel, no change of the history or of any other
    state. *)
Theorem blank_or_offline_submission_is_ignored (w : SSHTerminal.t) (input : text)
  (io : send_result) :
  (forallb SSHTerminal.is_space input = true ->
   SSHTerminal.send_command w input io = (w, []))
  /\ (is_connected (SSHTerminal.connection w) = false ->
      SSHTerminal.send_command w input io = (w, [])).
Proof.
  split.
  - intros H. unfold SSHTerminal.send_command, SSHTerminal.strip.
    now rewrite (lstrip_spaces input H).
  - intros H. unfold SSHTerminal.send_command.
    destruct (SSHTerminal.strip input); [reflexivity|]. now rewrite H.
Qed.

Lemma blank_or_offline_submission_is_ignored_witness :
  let w := SSHTerminal.connected (lit "10.236.165.25") (lit "root") (lit "root") 22 in
  forallb SSHTerminal.is_space (lit "   ") = true
  /\ SSHTerminal.send_command w (lit "   ") Sent = (w, []).
Proof.
  cbv zeta. split; [reflexivity|].
  apply (proj1 (blank_or_offline_submission_is_ignored
    (SSHTerminal.connected (lit "10.236.165.25") (lit "root") (lit "root") 22)
    (lit "   ") Sent)).
  reflexivity.
Defined.

Lemma record_command_completions (c : SSHConnection) (command : text) :
  completions (fst (SSHTerminal.record_command c command))
  = if negb (text_eqb command []) && negb (mem command (history c))
       && negb (mem command (completions c))
    then completions c ++ [command] else completions c.
Proof.
  unfold SSHTerminal.record_command.
  destruct command as [|x command]; [reflexivity|].
  change (text_eqb (x :: command) []) with false. cbn [negb andb].
  destruct (mem (x :: command) (history c)); [reflexivity|].
  cbn [negb andb SSHTerminal.append_history completions].
  destruct (mem (x :: command) (completions c)); reflexivity.
Qed.

Lemma send_command_completions (w : SSHTerminal.t) (input : text) (io : send_result) :
  completions (SSHTerminal.connection (fst (SSHTerminal.send_command w input io)))
  = if negb (text_eqb (SSHTerminal.strip input) [])
       && is_connected (SSHTerminal.connection w)
       && negb (mem (SSHTerminal.strip input) (history (SSHTerminal.connection w)))
       && negb (mem (SSHTerminal.strip input) (completions (SSHTerminal.connection w)))
    then completions (SSHTerminal.connection w) ++ [SSHTerminal.strip input]
    else completions (SSHTerminal.connection w).
Proof.
  rewrite send_command_connection.
  destruct (SSHTerminal.strip input) as [|x command] eqn:E; [reflexivity|].
  destruct (is_connected (SSHTerminal.connection w)); [|reflexivity].
  rewrite record_command_completions. reflexivity.
Qed.

(** X5.  A submission leaves the completion list as it was or adds the
    submitted command at its end, and nothing else; every command of the
    history stays a completion; and a completion list without repetition
    stays without repetition. *)
Theorem completions_follow_history (w : SSHTerminal.t) (input : text)
  (io : send_result) :
  let c := SSHTerminal.connection w in
  let c' := SSHTerminal.connection (fst (SSHTerminal.send_command w input io)) in
  (completions c' = completions c
   \/ completions c' = completions c ++ [SSHTerminal.strip input])
  /\ (incl (history c) (completions c) -> incl (history c') (completions c'))
  /\ (NoDup (completions c) -> NoDup (completions c')).
Proof.
  cbv zeta. rewrite send_command_completions, send_command_history.
  set (cmd := SSHTerminal.strip input).
  set (c := SSHTerminal.connection w).
  destruct (negb (text_eqb cmd [])); cbn [andb]; [|auto].
  destruct (is_connected c); cbn [andb]; [|auto].
  destruct (mem cmd (history c)) eqn:Mh; cbn [negb andb]; [auto|].
  destruct (mem cmd (completions c)) eqn:Mc; cbn [negb andb].
  - split; [now left|]. split; [|auto].
    intros I x Hx. apply in_app_or in Hx as [Hx|[<-|[]]]; [now apply I|].
    now apply mem_In.
  - split; [now right|]. split.
    + intros I x Hx. apply in_or_app.
      apply in_app_or in Hx as [Hx|[<-|[]]]; [left; now apply I | right; now left].
    + intros N. apply NoDup_snoc; [assumption | now apply mem_not_In].
Qed.

Lemma completions_follow_history_witness :
  let w := SSHTerminal.connected (lit "10.236.165.25") (lit "root") (lit "root") 22 in
  let w' := SSHTerminal.submit w [(lit "ls", Sent); (lit "htop", Sent)] in
  history (SSHTerminal.connection w') = [lit "ls"; lit "htop"]
  /\ completions (SSHTerminal.connection w') = default_completions ++ [lit "htop"]
  /\ incl (history (SSHTerminal.connection (fst (SSHTerminal.send_command w' (lit "vim") Sent))))
          (completions (SSHTerminal.connection (fst (SSHTerminal.send_command w' (lit "vim") Sent)))).
Proof.
  cbv zeta. split; [reflexivity|]. split; [reflexivity|].
  apply (proj1 (proj2 (completions_follow_history
    (SSHTerminal.submit
       (SSHTerminal.connected (lit "10.236.165.25") (lit "root") (lit "root") 22)
       [(lit "ls", Sent); (lit "htop", Sent)])
    (lit "vim") Sent))).
  intros x [<-|[<-|[]]]; vm_compute; tauto.
Defined.

Lemma record_command_recorded (c : SSHConnection) (command : text) :
  snd (SSHTerminal.record_command c command) = []
  \/ snd (SSHTerminal.record_command c command)
     = [SSHTerminal.setup_autocomplete
          (completions (fst (SSHTerminal.record_command c command)))].
Proof.
  unfold SSHTerminal.record_command.
  destruct command as [|x command]; [now left|].
  destruct (mem (x :: command) (history c)); [now left|].
  cbn [SSHTerminal.append_history completions].
  destruct (mem (x :: command) (completions c)); [now left | now right].
Qed.

(** X6.  Every submission that is accepted (non-empty after stripping, on a
    connected session with a worker and an open channel) is echoed first, as
    prompt, command and newline, then written to the channel followed by a
    newline, and the input line is cleared last; this holds also for a
    command that is already in the history and is not recorded again.
    Between the echo and the write the completer is rebuilt at most once. *)
Theorem accepted_command_is_echoed_and_sent (w : SSHTerminal.t) (input : text)
  (h : handle) :
  let command := SSHTerminal.strip input in
  let result := SSHTerminal.send_command w input Sent in
  command <> [] ->
  is_connected (SSHTerminal.connection w) = true ->
  shell (SSHTerminal.connection w) = Some h ->
  SSHTerminal.worker w = true ->
  exists recorded,
    snd result
    = [SSHTerminal.display_output (SSHTerminal.prompt w ++ command ++ [NL])]
      ++ recorded
      ++ [SSHTerminal.worker_effect (shell_send (command ++ [NL]));
          SSHTerminal.input_clear]
    /\ (recorded = []
        \/ recorded = [SSHTerminal.setup_autocomplete
                         (completions (SSHTerminal.connection (fst result)))]).
Proof.
  cbv zeta. intros I C S W. unfold SSHTerminal.send_command.
  destruct (SSHTerminal.strip input) as [|x command] eqn:E; [congruence|].
  rewrite C, W. cbn [negb].
  pose proof (record_command_is_connected (SSHTerminal.connection w) (x :: command)) as RC.
  pose proof (record_command_shell (SSHTerminal.connection w) (x :: command)) as RS.
  pose proof (record_command_recorded (SSHTerminal.connection w) (x :: command)) as RR.
  destruct (SSHTerminal.record_command (SSHTerminal.connection w) (x :: command))
    as [c' recorded].
  cbn [fst snd] in RC, RS, RR. unfold SSHWorker.send_command.
  rewrite RS, S, RC, C.
  cbn [fst snd SSHTerminal.connection map].
  exists recorded. split; [reflexivity | exact RR].
Qed.

Lemma accepted_command_is_echoed_and_sent_witness :
  let w := SSHTerminal.submit
             (SSHTerminal.connected (lit "10.236.165.25") (lit "root") (lit "root") 22)
             [(lit "ls", Sent)] in
  SSHTerminal.strip (lit " ls ") = lit "ls"
  /\ mem (lit "ls") (history (SSHTerminal.connection w)) = true
  /\ exists recorded,
       snd (SSHTerminal.send_command w (lit " ls ") Sent)
       = [SSHTerminal.display_output (lit "root@10.236.165.25:~$ ls" ++ [NL])]
         ++ recorded
         ++ [SSHTerminal.worker_effect (shell_send (lit "ls" ++ [NL]));
             SSHTerminal.input_clear].
Proof.
  cbv zeta. split; [reflexivity|]. split; [reflexivity|].
  destruct (accepted_command_is_echoed_and_sent
    (SSHTerminal.submit
       (SSHTerminal.connected (lit "10.236.165.25") (lit "root") (lit "root") 22)
       [(lit "ls", Sent)])
    (lit " ls ") 1%nat ltac:(discriminate) eq_refl eq_refl eq_refl)
    as (recorded & H & _).
  exists recorded. exact H.
Defined.

(** ** The worker's signals in the controller *)

Import SSHTerminalEvents.

Lemma deliver_app (a b : list signal) : forall w,
  deliver w (a ++ b)
  = (fst (deliver (fst (deliver w a)) b),
     snd (deliver w a) ++ snd (deliver (fst (deliver w a)) b)).
Proof.
  induction a as [|s a IH]; intros w.
  - cbn. now destruct (deliver w b).
  - cbn [app deliver]. destruct (on_signal w s) as [w' evs].
    rewrite (IH w'). destruct (deliver w' a) as [w'' evs']. cbn [fst snd].
    now rewrite app_assoc.
Qed.

Lemma deliver_open (sigs : list signal) : forall w,
  existsb is_closed sigs = false ->
  fst (deliver w sigs) = w /\ filter is_single_shot (snd (deliver w sigs)) = [].
Proof.
  induction sigs as [|s sigs IH]; intros w H; [split; reflexivity|].
  cbn [existsb] in H. apply orb_false_iff in H as [Hs Hr].
  destruct (IH w Hr) as [I1 I2].
  destruct s as [t| e |]; [| |discriminate]; cbn [deliver on_signal display_error];
    destruct (deliver w sigs) as [w' evs]; cbn [fst snd] in *; auto.
Qed.

Lemma deliver_outputs (sigs : list signal) : forall w,
  forallb is_output sigs = true ->
  shown (snd (deliver w sigs)) = output_text sigs.
Proof.
  induction sigs as [|s sigs IH]; intros w H; [reflexivity|].
  cbn [forallb] in H. apply andb_true_iff in H as [Hs Hr].
  destruct s as [t| e |]; try discriminate.
  cbn [deliver on_signal output_text]. specialize (IH w Hr).
  destruct (deliver w sigs) as [w' evs]. cbn [fst snd app shown] in *.
  now rewrite IH.
Qed.

Lemma shown_app (a b : list effect) : shown (a ++ b) = shown a ++ shown b.
Proof.
  induction a as [|e a IH]; [reflexivity|].
  destruct e; cbn [app shown]; try exact IH. now rewrite IH, app_assoc.
Qed.

Lemma flush_rest_outputs (buffer : text) :
  forallb is_output (flush_rest buffer) = true
  /\ existsb is_closed (flush_rest buffer) = false.
Proof. destruct buffer; split; reflexivity. Qed.

(** X7.  When the events of a run of the reader reach the controller in the
    order they were emitted, the session ends disconnected, the closing
    notice is the last text on the output pane, the tab close is scheduled
    once, 2000 ms later, and every later submission is ignored.  When no
    pass of the run raised, the pane shows exactly the decoded chunks
    followed by the notice. *)
Theorem reader_run_closes_the_session (tbl : N -> N -> option N)
  (script : list poll) (w : SSHTerminal.t) (input : text) (io : send_result) :
  let result := deliver w (receive_output tbl script) in
  fst result = with_connection w (set_connected (SSHTerminal.connection w) false)
  /\ filter is_single_shot (snd result) = [single_shot_close 2000]
  /\ (exists body, shown (snd result) = body ++ closed_notice)
  /\ (existsb is_raise script = false ->
      shown (snd result)
      = concat (map (Codec.decode tbl) (received script)) ++ closed_notice)
  /\ SSHTerminal.send_command (fst result) input io = (fst result, []).
Proof.
  cbv zeta. unfold receive_output.
  destruct (loop_spec tbl script []) as (L1 & L2 & _).
  pose proof (loop_outputs_only tbl script []) as O.
  destruct (loop tbl [] script) as [evs final]. cbn [fst snd] in *.
  destruct (flush_rest_outputs final) as [F1 F2].
  rewrite app_assoc, deliver_app.
  assert (Hopen : existsb is_closed (evs ++ flush_rest final) = false)
    by now rewrite existsb_app, L2, F2.
  destruct (deliver_open _ w Hopen) as [D1 D2].
  rewrite D1. cbn [deliver on_signal on_connection_closed fst snd].
  rewrite app_nil_r.
  split; [reflexivity|]. split; [|split; [|split]].
  - now rewrite filter_app, D2.
  - rewrite shown_app. cbn [shown]. rewrite app_nil_r. eexists. reflexivity.
  - intros R. rewrite shown_app. cbn [shown]. rewrite app_nil_r. f_equal.
    rewrite deliver_outputs by now rewrite forallb_app, (O R), F1.
    change ([] ++ concat (map (Codec.decode tbl) (received script)))
      with (concat (map (Codec.decode tbl) (received script))) in L1.
    rewrite output_text_app, <- L1. f_equal.
    destruct final; cbn; [reflexivity | now rewrite app_nil_r].
  - unfold SSHTerminal.send_command.
    destruct (SSHTerminal.strip input); reflexivity.
Qed.

Lemma reader_run_closes_the_session_witness :
  let w := SSHTerminal.connected (lit "10.236.165.25") (lit "root") (lit "root") 22 in
  let script := [Recv [x6f; x6b; x0a; x24]; NotReady] in
  existsb is_raise script = false
  /\ shown (snd (deliver w (receive_output Codec.gbk_excerpt script)))
     = lit "ok" ++ [NL] ++ lit "$" ++ closed_notice.
Proof.
  cbv zeta. split; [reflexivity|].
  etransitivity.
  - apply (proj1 (proj2 (proj2 (proj2 (reader_run_closes_the_session Codec.gbk_excerpt
      [Recv [x6f; x6b; x0a; x24]; NotReady]
      (SSHTerminal.connected (lit "10.236.165.25") (lit "root") (lit "root") 22)
      [] Sent))))).
    reflexivity.
  - reflexivity.
Defined.

(** X8.  Closing the widget always leaves the session disconnected and
    always ends by accepting the close event; closing it a second time
    closes neither the channel nor the client again. *)
Theorem close_event_is_idempotent (w : SSHTerminal.t) (env env' : close_env) :
  is_connected (SSHTerminal.connection (fst (closeEvent w env))) = false
  /\ (exists before, snd (closeEvent w env) = before ++ [event_accept])
  /\ filter is_close_call (snd (closeEvent (fst (closeEvent w env)) env')) = [].
Proof.
  assert (A : is_connected (SSHTerminal.connection (fst (closeEvent w env))) = false).
  { unfold closeEvent.
    destruct (is_connected (SSHTerminal.connection w)) eqn:C; [reflexivity | exact C]. }
  split; [exact A|]. split.
  - unfold closeEvent. destruct (is_connected (SSHTerminal.connection w)).
    + eexists. cbn [snd]. now rewrite app_assoc.
    + eexists. reflexivity.
  - unfold closeEvent at 1. rewrite A. cbn [snd].
    rewrite filter_app. cbn [filter is_close_call].
    destruct (thread_running env'); [|reflexivity].
    destruct (SSHTerminal.worker (fst (closeEvent w env))); reflexivity.
Qed.

(** X9.  The channel and the client are closed only by a widget whose
    session is still marked connected: once the reader's closed event has
    been handled, closing the widget closes neither.  And when closing the
    channel raises, the client is not closed. *)
Theorem close_event_skips_closes (w : SSHTerminal.t) (env : close_env) (h : handle) :
  filter is_close_call (snd (closeEvent (fst (on_connection_closed w)) env)) = []
  /\ (is_connected (SSHTerminal.connection w) = false ->
      filter is_close_call (snd (closeEvent w env)) = [])
  /\ (is_connected (SSHTerminal.connection w) = true ->
      shell (SSHTerminal.connection w) = Some h ->
      shell_close_raises env = true ->
      filter is_close_call (snd (closeEvent w env)) = [shell_close]).
Proof.
  assert (G : forall w0, is_connected (SSHTerminal.connection w0) = false ->
                filter is_close_call (snd (closeEvent w0 env)) = []).
  { intros w0 C. unfold closeEvent. rewrite C. cbn [snd].
    rewrite filter_app. cbn [filter is_close_call].
    destruct (thread_running env); [|reflexivity].
    destruct (SSHTerminal.worker w0); reflexivity. }
  split; [apply G; reflexivity|]. split; [apply G|].
  intros C S R. unfold closeEvent. rewrite C. cbn [snd].
  unfold close_calls. rewrite S, R. rewrite !filter_app. cbn [filter is_close_call].
  destruct (thread_running env); [|reflexivity].
  destruct (SSHTerminal.worker w); reflexivity.
Qed.

Lemma close_event_skips_closes_witness :
  let w := SSHTerminal.connected (lit "10.236.165.25") (lit "root") (lit "root") 22 in
  let env := {| thread_running := true; shell_close_raises := true;
                client_close_raises := false |} in
  snd (closeEvent w env)
  = [worker_stop; thread_quit; thread_wait 1000; shell_close; event_accept]
  /\ filter is_close_call (snd (closeEvent w env)) = [shell_close].
Proof.
  cbv zeta. split; [reflexivity|].
  apply (proj2 (proj2 (close_event_skips_closes
    (SSHTerminal.connected (lit "10.236.165.25") (lit "root") (lit "root") 22)
    {| thread_running := true; shell_close_raises := true;
       client_close_raises := false |} 1%nat)));
    reflexivity.
Defined.

(** X10.  Starting from a connection that is not connected, [init_ssh]
    returns with the session connected exactly when the handshake and the
    request of the channel both succeed, and then with a worker and the
    channel in place and no error dialog.  An authentication failure shows
    one critical message and requests the tab close once; it leaves no
    worker and the session not connected, so that later submissions are
    ignored and closing the widget closes nothing.  Every other failure
    raises [AttributeError] out of [init_ssh]: nothing is shown, no tab
    close is requested, and the connection is left not connected, with the
    client object stored and no channel. *)
Theorem init_ssh_outcomes (c : SSHConnection) (new_client : handle)
  (r : connect_result) (s : shell_result) (input : text) (io : send_result)
  (env : close_env) :
  let result := init_ssh c new_client r s in
  is_connected c = false ->
  client (connection_after result) = Some new_client
  /\ (is_connected (connection_after result) = true ->
      r = connected_ok
      /\ exists channel w,
           s = shell_ok channel
           /\ result = returned w [thread_start;
                                   display_output (welcome (SSHTerminal.connection w));
                                   input_set_enabled true; input_set_focus]
           /\ shell (SSHTerminal.connection w) = Some channel
           /\ SSHTerminal.worker w = true)
  /\ (r = connected_ok -> (exists channel, s = shell_ok channel) ->
      is_connected (connection_after result) = true)
  /\ (r = authentication_exception ->
      exists w,
        result = returned w [message_critical
                               (lit "Authentication failed: Check username/password");
                             tab_close_requested]
        /\ is_connected (SSHTerminal.connection w) = false
        /\ SSHTerminal.worker w = false
        /\ SSHTerminal.send_command w input io = (w, [])
        /\ filter is_close_call (snd (closeEvent w env)) = [])
  /\ ((exists e, r = connect_raises e)
      \/ (r = connected_ok /\ exists e, s = shell_raises e) ->
      result = attribute_error (with_client c new_client)
      /\ effects_of result = []
      /\ is_connected (connection_after result) = false
      /\ shell (connection_after result) = shell c).
Proof.
  cbv zeta. intros C.
  assert (G : forall w0, is_connected (SSHTerminal.connection w0) = false ->
                SSHTerminal.send_command w0 input io = (w0, [])
                /\ filter is_close_call (snd (closeEvent w0 env)) = []).
  { intros w0 C0. split.
    - unfold SSHTerminal.send_command.
      destruct (SSHTerminal.strip input); [reflexivity | now rewrite C0].
    - unfold closeEvent. rewrite C0. cbn [snd].
      rewrite filter_app. cbn [filter is_close_call].
      destruct (thread_running env); [|reflexivity].
      destruct (SSHTerminal.worker w0); reflexivity. }
  unfold init_ssh.
  destruct r as [| |e]; [destruct s as [channel|e]|..];
    cbn [connection_after effects_of SSHTerminal.connection SSHTerminal.worker
         with_client with_shell set_connected client shell is_connected].
  - split; [reflexivity|]. split; [|split; [|split]].
    + intros _. split; [reflexivity|].
      exists channel.
      exists {| SSHTerminal.connection :=
                  set_connected (with_shell (with_client c new_client) channel) true;
                SSHTerminal.worker := true;
                SSHTerminal.prompt := SSHTerminal.make_prompt c |}.
      split; [reflexivity|]. split; [reflexivity|]. split; reflexivity.
    + reflexivity.
    + discriminate.
    + intros [[e [=]]|[_ [e [=]]]].
  - split; [reflexivity|]. split; [|split; [|split]].
    + congruence.
    + intros _ [channel [=]].
    + discriminate.
    + intros _. repeat split; assumption.
  - split; [reflexivity|]. split; [|split; [|split]].
    + congruence.
    + discriminate.
    + intros _. eexists. split; [reflexivity|].
      cbn [SSHTerminal.connection SSHTerminal.worker is_connected].
      split; [exact C|]. split; [reflexivity|]. apply G. exact C.
    + intros [[e [=]]|[[=] _]].
  - split; [reflexivity|]. split; [|split; [|split]].
    + congruence.
    + discriminate.
    + discriminate.
    + intros _. repeat split; assumption.
Qed.

Lemma init_ssh_outcomes_witness :
  let result := init_ssh SSHLoginDialog.blank 0%nat connected_ok
                         (shell_raises (lit "Channel closed")) in
  is_connected SSHLoginDialog.blank = false
  /\ result = attribute_error (with_client SSHLoginDialog.blank 0%nat)
  /\ effects_of result = []
  /\ client (connection_after result) = Some 0%nat.
Proof.
  cbv zeta. split; [reflexivity|].
  pose proof (init_ssh_outcomes SSHLoginDialog.blank 0%nat connected_ok
                (shell_raises (lit "Channel closed")) [] Sent
                {| thread_running := false; shell_close_raises := false;
                   client_close_raises := false |} eq_refl) as H.
  destruct H as (H1 & _ & _ & _ & H5).
  destruct H5 as (R1 & R2 & _).
  { right. split; [reflexivity|]. eexists. reflexivity. }
  split; [exact R1|]. split; [exact R2 | exact H1].
Defined.

(** ** The login dialog *)

(** X11.  The dialog accepts exactly when the stripped host is not empty,
    the port text is an integer between 1 and 65535 and the stripped user
    name is not empty; the connection it hands over holds the stripped
    fields and that port, and is not connected.  A port text that is not an
    integer is reported before anything else, an empty host before a port
    out of range. *)
Theorem login_accepts_valid_fields (f : SSHLoginDialog.fields) (c : SSHConnection)
  (p : Z) :
  (SSHLoginDialog.accept f = inl c ->
   host c = SSHTerminal.strip (SSHLoginDialog.host_edit f) /\ host c <> []
   /\ SSHLoginDialog.port_edit f = Some (Z.of_N (port c))
   /\ 1 <= port c <= 65535
   /\ username c = SSHTerminal.strip (SSHLoginDialog.user_edit f)
   /\ username c <> []
   /\ password c = SSHTerminal.strip (SSHLoginDialog.pass_edit f)
   /\ is_connected c = false /\ shell c = None /\ history c = [])
  /\ (SSHTerminal.strip (SSHLoginDialog.host_edit f) <> [] ->
      SSHLoginDialog.port_edit f = Some p ->
      (1 <= p <= 65535)%Z ->
      SSHTerminal.strip (SSHLoginDialog.user_edit f) <> [] ->
      exists c', SSHLoginDialog.accept f = inl c')
  /\ (SSHLoginDialog.port_edit f = None ->
      SSHLoginDialog.accept f = inr SSHLoginDialog.invalid_literal)
  /\ (SSHLoginDialog.port_edit f = Some p ->
      SSHTerminal.strip (SSHLoginDialog.host_edit f) = [] ->
      SSHLoginDialog.accept f
      = inr (SSHLoginDialog.value_error (lit "Host cannot be empty"))).
Proof.
  unfold SSHLoginDialog.accept.
  split; [|split; [|split]].
  - destruct (SSHLoginDialog.port_edit f) as [q|]; [|discriminate].
    destruct (SSHTerminal.strip (SSHLoginDialog.host_edit f)) as [|x h] eqn:H;
      [discriminate|].
    destruct ((q <? 1) || (65535 <? q))%Z eqn:R; [discriminate|].
    destruct (SSHTerminal.strip (SSHLoginDialog.user_edit f)) as [|y u] eqn:U;
      [discriminate|].
    intros [= <-]. cbn [host port username password is_connected shell history].
    apply orb_false_iff in R as [R1 R2].
    apply Z.ltb_ge in R1. apply Z.ltb_ge in R2.
    repeat split; try discriminate; try lia.
    f_equal. lia.
  - intros H P R U. rewrite P.
    destruct (SSHTerminal.strip (SSHLoginDialog.host_edit f)) as [|x h]; [congruence|].
    replace ((p <? 1) || (65535 <? p))%Z with false.
    + destruct (SSHTerminal.strip (SSHLoginDialog.user_edit f)) as [|y u]; [congruence|].
      eexists. reflexivity.
    + symmetry. apply orb_false_iff. split; apply Z.ltb_ge; lia.
  - now intros ->.
  - now intros -> ->.
Qed.

Lemma login_accepts_valid_fields_witness :
  let f := {| SSHLoginDialog.host_edit := lit " 10.236.165.25 ";
              SSHLoginDialog.port_edit := Some 22%Z;
              SSHLoginDialog.user_edit := lit "root";
              SSHLoginDialog.pass_edit := lit "root" |} in
  SSHTerminal.strip (SSHLoginDialog.host_edit f) = lit "10.236.165.25"
  /\ exists c, SSHLoginDialog.accept f = inl c.
Proof.
  cbv zeta. split; [reflexivity|].
  apply (proj1 (proj2 (login_accepts_valid_fields
    {| SSHLoginDialog.host_edit := lit " 10.236.165.25 ";
       SSHLoginDialog.port_edit := Some 22%Z;
       SSHLoginDialog.user_edit := lit "root";
       SSHLoginDialog.pass_edit := lit "root" |} SSHLoginDialog.blank 22%Z)));
    [discriminate | reflexivity | lia | discriminate].
Defined.

(** ** The file uploader *)

Lemma endswith_slash_snoc (s : text) :
  FileUploader.endswith_slash (s ++ [FileUploader.SLASH]) = true.
Proof.
  unfold FileUploader.endswith_slash. rewrite rev_app_distr. reflexivity.
Qed.

Lemma endswith_slash_inv (s : text) :
  FileUploader.endswith_slash s = true -> exists a, s = a ++ [FileUploader.SLASH].
Proof.
  unfold FileUploader.endswith_slash. intros H.
  destruct (rev s) as [|c r] eqn:E; [discriminate|].
  apply N.eqb_eq in H. subst c. exists (rev r).
  rewrite <- (rev_involutive s), E. reflexivity.
Qed.

Lemma last_component_no_slash (s : text) :
  existsb (N.eqb FileUploader.SLASH) (FileUploader.last_component s) = false.
Proof.
  induction s as [|c rest IH]; [reflexivity|].
  cbn [FileUploader.last_component].
  destruct (existsb (N.eqb FileUploader.SLASH) rest) eqn:E; [exact IH|].
  destruct (c =? FileUploader.SLASH) eqn:C; [exact E|].
  cbn [existsb]. rewrite N.eqb_sym, C, E. reflexivity.
Qed.

Lemma last_component_suffix (s : text) :
  exists prefix,
    s = prefix ++ FileUploader.last_component s
    /\ (prefix = [] \/ FileUploader.endswith_slash prefix = true).
Proof.
  induction s as [|c rest IH]; [exists []; split; [reflexivity | now left]|].
  cbn [FileUploader.last_component].
  destruct (existsb (N.eqb FileUploader.SLASH) rest) eqn:E.
  - destruct IH as (prefix & H1 & H2). exists (c :: prefix). split.
    + cbn. now rewrite <- H1.
    + right. destruct H2 as [->|H2].
      * rewrite app_nil_l in H1.
        pose proof (last_component_no_slash rest) as N. rewrite <- H1 in N.
        congruence.
      * apply endswith_slash_inv in H2 as [a ->].
        change (c :: a ++ [FileUploader.SLASH]) with ((c :: a) ++ [FileUploader.SLASH]).
        apply endswith_slash_snoc.
  - destruct (c =? FileUploader.SLASH) eqn:C.
    + apply N.eqb_eq in C. subst c. exists [FileUploader.SLASH].
      split; [reflexivity | right; reflexivity].
    + exists []. split; [reflexivity | now left].
Qed.

Lemma last_component_after_slash (a b : text) :
  existsb (N.eqb FileUploader.SLASH) b = false ->
  FileUploader.last_component (a ++ FileUploader.SLASH :: b) = b.
Proof.
  intros Hb. induction a as [|x a IH].
  - cbn [app FileUploader.last_component]. rewrite Hb. reflexivity.
  - cbn [app FileUploader.last_component].
    rewrite existsb_app. cbn [existsb]. rewrite N.eqb_refl, orb_true_r.
    exact IH.
Qed.

(** X12.  The remote path of an upload is the remote directory, with one
    slash added when it does not end in one, followed by what follows the
    last slash of the local path.  That file name holds no slash, the local
    path is a directory prefix followed by it, and it is the last component
    of the remote path too: the file keeps its name. *)
Theorem upload_keeps_the_file_name (remote_path file_path : text) :
  FileUploader.endswith_slash (FileUploader.remote_dir remote_path) = true
  /\ (FileUploader.endswith_slash remote_path = true ->
      FileUploader.remote_dir remote_path = remote_path)
  /\ existsb (N.eqb FileUploader.SLASH) (FileUploader.last_component file_path) = false
  /\ (exists prefix,
        file_path = prefix ++ FileUploader.last_component file_path
        /\ (prefix = [] \/ FileUploader.endswith_slash prefix = true))
  /\ FileUploader.last_component (FileUploader.full_remote_path remote_path file_path)
     = FileUploader.last_component file_path.
Proof.
  assert (D : FileUploader.endswith_slash (FileUploader.remote_dir remote_path) = true).
  { unfold FileUploader.remote_dir.
    destruct (FileUploader.endswith_slash remote_path) eqn:E;
      [exact E | apply endswith_slash_snoc]. }
  split; [exact D|]. split; [|split; [|split]].
  - unfold FileUploader.remote_dir. now intros ->.
  - apply last_component_no_slash.
  - apply last_component_suffix.
  - unfold FileUploader.full_remote_path.
    apply endswith_slash_inv in D as [a ->]. rewrite <- app_assoc. cbn [app].
    apply last_component_after_slash, last_component_no_slash.
Qed.

Lemma upload_keeps_the_file_name_witness :
  FileUploader.endswith_slash (lit "/home/root/") = true
  /\ FileUploader.remote_dir (lit "/home/root/") = lit "/home/root/"
  /\ FileUploader.full_remote_path (lit "/home/root") (lit "/tmp/logs/boot.log")
     = lit "/home/root/boot.log".
Proof.
  split; [reflexivity|]. split; [|reflexivity].
  apply (proj1 (proj2 (upload_keeps_the_file_name (lit "/home/root/") []))).
  reflexivity.
Defined.

Import FileUploader.

(** The upload proper, once the checks have passed and the client is there:
    lines 1055-1072. *)
Lemma upload_file_ready (w : FileUploader.t) (env : sftp_env) (c : SSHConnection)
  (h : handle) :
  upload_ready w = true ->
  ssh_connection w = Some c ->
  client c = Some h ->
  upload_file w env
  = [upload_set_enabled false; status (lit "Uploading..."); call_open_sftp]
    ++ match open_sftp env with
       | done =>
           call_stat (remote_dir (SSHTerminal.strip (remote_path w))) ::
           match stat env with
           | done =>
               put_and_close env (SSHTerminal.strip (file_edit w)) (upload_target w)
           | raises_io_error _ =>
               call_mkdir (remote_dir (SSHTerminal.strip (remote_path w))) ::
               match mkdir env with
               | done =>
                   put_and_close env (SSHTerminal.strip (file_edit w)) (upload_target w)
               | o => upload_failed (message_of o)
               end
           | raises_other e => upload_failed e
           end
       | o => upload_failed (message_of o)
       end.
Proof.
  unfold upload_ready, upload_file, upload_target, full_remote_path.
  intros R S C. rewrite S in *. rewrite C.
  destruct (is_connected c); [|cbn in R; discriminate]. cbn [negb andb] in *.
  destruct (SSHTerminal.strip (file_edit w)) as [|x fp]; [cbn in R; discriminate|].
  destruct (SSHTerminal.strip (remote_path w)) as [|y rp]; [cbn in R; discriminate|].
  reflexivity.
Qed.

Lemma upload_file_not_ready (w : FileUploader.t) (env : sftp_env) :
  upload_ready w = false -> exists msg, upload_file w env = [message_warning msg].
Proof.
  unfold upload_ready, upload_file.
  destruct (ssh_connection w) as [c|]; [|eexists; reflexivity].
  destruct (is_connected c); [|eexists; reflexivity]. cbn [negb andb].
  destruct (SSHTerminal.strip (file_edit w)) as [|x fp]; [eexists; reflexivity|].
  destruct (SSHTerminal.strip (remote_path w)) as [|y rp]; [eexists; reflexivity|].
  cbn. discriminate.
Qed.

Lemma upload_file_no_client (w : FileUploader.t) (env : sftp_env) (c : SSHConnection) :
  upload_ready w = true ->
  ssh_connection w = Some c ->
  client c = None ->
  upload_file w env
  = [upload_set_enabled false; status (lit "Uploading...")]
    ++ upload_failed (lit "'NoneType' object has no attribute 'open_sftp'").
Proof.
  unfold upload_ready, upload_file.
  intros R S C. rewrite S in *. rewrite C.
  destruct (is_connected c); [|cbn in R; discriminate]. cbn [negb andb] in *.
  destruct (SSHTerminal.strip (file_edit w)) as [|x fp]; [cbn in R; discriminate|].
  destruct (SSHTerminal.strip (remote_path w)) as [|y rp]; [cbn in R; discriminate|].
  reflexivity.
Qed.

Lemma ends_enabled_cons (e : FileUploader.effect) (evs : list FileUploader.effect) :
  ends_enabled evs -> ends_enabled (e :: evs).
Proof. intros [before ->]. now exists (e :: before). Qed.

Lemma upload_failed_ends (e : text) : ends_enabled (upload_failed e).
Proof. now exists [status (lit "Upload failed: " ++ e);
                   message_warning (lit "Upload failed: " ++ e)]. Qed.

Lemma put_and_close_ends (env : sftp_env) (local remote : text) :
  ends_enabled (put_and_close env local remote).
Proof.
  unfold put_and_close.
  destruct (put env); apply ends_enabled_cons; try apply upload_failed_ends.
  destruct (close env); apply ends_enabled_cons; try apply upload_failed_ends.
  now exists [status (lit "Upload successful: " ++ remote)].
Qed.

Lemma upload_failed_no_call (e : text) :
  filter is_sftp_call (upload_failed e) = [].
Proof. reflexivity. Qed.

(** X13.  An upload is not started without a connected session, a selected
    file and a remote path: one warning is shown and the SFTP client is not
    touched.  An upload that is started disables the button, shows
    "Uploading...", and, whatever then succeeds or raises, ends by enabling
    the button again. *)
Theorem upload_guards_and_reenables (w : FileUploader.t) (env : sftp_env) :
  (upload_ready w = false ->
   (exists msg, upload_file w env = [message_warning msg])
   /\ filter is_sftp_call (upload_file w env) = [])
  /\ (upload_ready w = true ->
      exists after,
        upload_file w env
        = [upload_set_enabled false; status (lit "Uploading...")] ++ after
        /\ ends_enabled after
        /\ filter is_warning (upload_file w env) = filter is_warning after).
Proof.
  split.
  - intros R. destruct (upload_file_not_ready w env R) as [msg E].
    split; [now exists msg | now rewrite E].
  - intros R.
    destruct (ssh_connection w) as [c|] eqn:S;
      [|unfold upload_ready in R; rewrite S in R; discriminate].
    destruct (client c) as [h|] eqn:C.
    + rewrite (upload_file_ready w env c h R S C).
      eexists. split; [reflexivity|]. split; [|reflexivity].
      apply ends_enabled_cons.
      destruct (open_sftp env); try apply upload_failed_ends.
      apply ends_enabled_cons.
      destruct (stat env); try apply upload_failed_ends;
        [apply put_and_close_ends|].
      apply ends_enabled_cons.
      destruct (mkdir env); try apply upload_failed_ends.
      apply put_and_close_ends.
    + rewrite (upload_file_no_client w env c R S C).
      eexists. split; [reflexivity|]. split; [apply upload_failed_ends | reflexivity].
Qed.

Lemma upload_guards_and_reenables_witness :
  let w := {| ssh_connection := None; file_edit := lit "/tmp/a.txt";
              remote_path := lit "/home/" |} in
  let env := {| open_sftp := done; stat := done; mkdir := done; put := done;
                close := done |} in
  upload_ready w = false
  /\ upload_file w env = [message_warning (lit "No active SSH connection")]
  /\ filter is_sftp_call (upload_file w env) = [].
Proof.
  cbv zeta. split; [reflexivity|]. split; [reflexivity|].
  apply (proj1 (upload_guards_and_reenables
    {| ssh_connection := None; file_edit := lit "/tmp/a.txt";
       remote_path := lit "/home/" |}
    {| open_sftp := done; stat := done; mkdir := done; put := done;
       close := done |})).
  reflexivity.
Defined.

Lemma is_success_failed (remote e : text) :
  existsb (is_success remote) (upload_failed e) = false.
Proof.
  unfold upload_failed. cbn [existsb is_success].
  replace (text_eqb (lit "Upload failed: " ++ e) (lit "Upload successful: " ++ remote))
    with false; [reflexivity|].
  symmetry. apply text_eqb_neq. cbn. discriminate.
Qed.

Lemma is_put_failed (e : text) : existsb is_put (upload_failed e) = false.
Proof. reflexivity. Qed.

Lemma put_and_close_success (env : sftp_env) (local remote : text) :
  existsb (is_success remote) (put_and_close env local remote)
  = match put env, close env with
    | done, done => true
    | _, _ => false
    end.
Proof.
  unfold put_and_close. cbn [existsb is_success orb].
  destruct (put env); try apply is_success_failed.
  cbn [existsb is_success orb].
  destruct (close env); try apply is_success_failed.
  cbn [existsb is_success]. now rewrite text_eqb_refl.
Qed.

(** X14.  Once an upload has started with a client in place, the status
    line announces success exactly when every SFTP call returned: the
    client opened, the remote directory was found or, after an [IOError] of
    [stat], created, the file was put and the client closed.  The file is
    put only after the directory was found or created, under the remote
    directory and its own name, and the directory is created only after
    [stat] raised [IOError]. *)
Theorem upload_succeeds_when_all_calls_return (w : FileUploader.t) (env : sftp_env)
  (c : SSHConnection) (h : handle) :
  upload_ready w = true ->
  ssh_connection w = Some c ->
  client c = Some h ->
  existsb (is_success (upload_target w)) (upload_file w env) = all_done env
  /\ (existsb is_put (upload_file w env) = true ->
      In (call_put (SSHTerminal.strip (file_edit w)) (upload_target w))
         (upload_file w env)
      /\ open_sftp env = done
      /\ (stat env = done
          \/ ((exists e, stat env = raises_io_error e) /\ mkdir env = done)))
  /\ (In (call_mkdir (remote_dir (SSHTerminal.strip (remote_path w))))
         (upload_file w env) ->
      exists e, stat env = raises_io_error e).
Proof.
  intros R S C. rewrite (upload_file_ready w env c h R S C).
  unfold all_done.
  cbn [app existsb is_success is_put orb In].
  destruct (open_sftp env) as [|e|e].
  - cbn [existsb is_success is_put orb In].
    destruct (stat env) as [|e|e].
    + rewrite put_and_close_success. split; [|split].
      * destruct (put env), (close env); reflexivity.
      * intros _. split; [|split; [reflexivity | now left]].
        do 4 right. unfold put_and_close. now left.
      * intros [?|[?|[?|[?|H]]]]; try discriminate.
        unfold put_and_close, upload_failed in H.
        destruct (put env), (close env); cbn in H;
          repeat (destruct H as [H|H]; try discriminate); contradiction.
    + cbn [existsb is_success is_put orb In].
      destruct (mkdir env) as [|e'|e'].
      * rewrite put_and_close_success. split; [|split].
        -- destruct (put env), (close env); reflexivity.
        -- intros _. split; [|split; [reflexivity|]].
           ++ do 5 right. unfold put_and_close. now left.
           ++ right. split; [now exists e | reflexivity].
        -- intros _. now exists e.
      * rewrite is_success_failed, is_put_failed. split; [|split].
        -- destruct (put env), (close env); reflexivity.
        -- discriminate.
        -- intros _. now exists e.
      * rewrite is_success_failed, is_put_failed. split; [|split].
        -- destruct (put env), (close env); reflexivity.
        -- discriminate.
        -- intros _. now exists e.
    + rewrite is_success_failed, is_put_failed. split; [|split].
      * destruct (put env), (close env); reflexivity.
      * discriminate.
      * unfold upload_failed.
        intros [?|[?|[?|[?|[?|[?|[?|[]]]]]]]]; discriminate.
  - rewrite is_success_failed, is_put_failed. split; [|split].
    + reflexivity.
    + discriminate.
    + unfold upload_failed. cbn [message_of].
      intros [?|[?|[?|[?|[?|[?|[]]]]]]]; discriminate.
  - rewrite is_success_failed, is_put_failed. split; [|split].
    + reflexivity.
    + discriminate.
    + unfold upload_failed. cbn [message_of].
      intros [?|[?|[?|[?|[?|[?|[]]]]]]]; discriminate.
Qed.

Lemma upload_succeeds_when_all_calls_return_witness :
  let c := SSHTerminal.connection
             (SSHTerminal.connected (lit "10.236.165.25") (lit "root") (lit "root") 22) in
  let w := {| ssh_connection := Some c; file_edit := lit "/tmp/logs/boot.log";
              remote_path := lit "/home/root" |} in
  let env := {| open_sftp := done; stat := raises_io_error (lit "No such file");
                mkdir := done; put := done; close := done |} in
  upload_ready w = true
  /\ upload_file w env
     = [upload_set_enabled false; status (lit "Uploading..."); call_open_sftp;
        call_stat (lit "/home/root/"); call_mkdir (lit "/home/root/");
        call_put (lit "/tmp/logs/boot.log") (lit "/home/root/boot.log"); call_close;
        status (lit "Upload successful: /home/root/boot.log");
        upload_set_enabled true]
  /\ existsb (is_success (upload_target w)) (upload_file w env) = all_done env.
Proof.
  cbv zeta. split; [reflexivity|]. split; [reflexivity|].
  apply (proj1 (upload_succeeds_when_all_calls_return
    {| ssh_connection :=
         Some (SSHTerminal.connection
                 (SSHTerminal.connected (lit "10.236.165.25") (lit "root") (lit "root") 22));
       file_edit := lit "/tmp/logs/boot.log"; remote_path := lit "/home/root" |}
    {| open_sftp := done; stat := raises_io_error (lit "No such file");
       mkdir := done; put := done; close := done |}
    (SSHTerminal.connection
       (SSHTerminal.connected (lit "10.236.165.25") (lit "root") (lit "root") 22))
    0%nat eq_refl eq_refl eq_refl)).
Defined.

(** ** The telemetry pipeline *)

Import DataVisualizer.

Lemma is_float_formattable (v : pyval) : WS.is_float v = true -> formattable v = true.
Proof. destruct v; try discriminate. exact (fun H => H). Qed.

Lemma well_typed_has_dict (d : WS.WebSocketData) :
  WS.well_typed d = true -> has_dict d = true.
Proof.
  unfold WS.well_typed, has_dict. intros H. apply andb_true_iff in H as [_ H].
  destruct (WS.variables d); try discriminate; reflexivity.
Qed.

Lemma documented_record (m : message) :
  documented m = true ->
  exists items,
    json_loads m = Loaded (PDict items)
    /\ WS.well_typed (make_record items (now m)) = true.
Proof.
  unfold documented. intros H. apply andb_true_iff in H as [Hn H].
  destruct (json_loads m) as [[| | | | |items]| |]; try discriminate.
  apply andb_true_iff in H as [Ht Hv].
  exists items. split; [reflexivity|].
  unfold WS.well_typed, make_record, dict_get. cbn [WS.timestamp WS.variables].
  apply andb_true_iff. split.
  - destruct (lookup items (lit "timestamp")); assumption.
  - destruct (lookup items (lit "variables")) as [[| | | | |vars]|];
      try discriminate; [assumption | reflexivity].
Qed.

Lemma append_well_typed (w : t) (d : WS.WebSocketData) :
  forallb WS.well_typed (data_buffer w) = true ->
  WS.well_typed d = true ->
  forallb WS.well_typed (data_buffer (append w d)) = true.
Proof.
  intros Hw Hd.
  assert (A : forallb WS.well_typed (data_buffer w ++ [d]) = true).
  { rewrite forallb_app, Hw. cbn. now rewrite Hd. }
  unfold append.
  destruct (max_data_points w <? length (data_buffer w ++ [d]))%nat;
    cbn [data_buffer set_buffer]; [|exact A].
  destruct (data_buffer w ++ [d]) as [|x l]; [reflexivity|].
  cbn [tl]. cbn [forallb] in A. now apply andb_true_iff in A as [_ A].
Qed.

Lemma receive_documented (v : variant) (msgs : list message) : forall w,
  forallb documented msgs = true ->
  forallb WS.well_typed (data_buffer w) = true ->
  forallb WS.well_typed (data_buffer (fst (fst (receive v w msgs)))) = true.
Proof.
  induction msgs as [|m msgs IH]; intros w H Hw; [exact Hw|].
  cbn [forallb] in H. apply andb_true_iff in H as [Hm Hr].
  destruct (documented_record m Hm) as (items & J & T).
  cbn [receive]. unfold on_message. rewrite J.
  specialize (IH (append w (make_record items (now m))) Hr
                 (append_well_typed w _ Hw T)).
  destruct (receive v (append w (make_record items (now m))) msgs) as [[w'' evs'] ok'].
  exact IH.
Qed.

Lemma websocket_client_documented (v : variant) (attempts : list attempt) : forall w,
  forallb documented (delivered attempts) = true ->
  forallb WS.well_typed (data_buffer w) = true ->
  forallb WS.well_typed (data_buffer (fst (websocket_client v w attempts))) = true.
Proof.
  induction attempts as [|a rest IH]; intros w H Hw; [exact Hw|].
  rewrite websocket_client_cons. cbn [fst].
  destruct a as [|msgs fin].
  - apply IH; assumption.
  - cbn [delivered] in H. rewrite forallb_app in H.
    apply andb_true_iff in H as [Hm Hr].
    apply IH; [exact Hr|].
    pose proof (receive_documented v msgs w Hm Hw) as R.
    unfold pass. destruct (receive v w msgs) as [[w' evs] ok]. exact R.
Qed.

Lemma forallb_last (A : Type) (p : A -> bool) (front : list A) (x : A) :
  forallb p (front ++ [x]) = true -> p x = true.
Proof.
  rewrite forallb_app. cbn. intros H. apply andb_true_iff in H as [_ H].
  now apply andb_true_iff in H as [H _].
Qed.

Lemma update_plot_defined (w : t) :
  forallb WS.well_typed (data_buffer w) = true -> exists w', update_plot w = Some w'.
Proof.
  intros H. unfold update_plot.
  destruct (data_buffer w) as [|d0 l] eqn:B using rev_ind.
  - cbn. now exists w.
  - clear IHl. rewrite last_map_Some.
    pose proof (forallb_last _ _ _ _ H) as T.
    unfold WS.well_typed in T. apply andb_true_iff in T as [_ T].
    destruct (WS.variables d0) as [| | | | |items]; try discriminate.
    assert (F : forallb (fun kv => formattable (snd kv)) items = true).
    { rewrite forallb_forall in *. intros kv Hkv.
      apply is_float_formattable, T, Hkv. }
    rewrite F.
    assert (D : forallb has_dict (l ++ [d0]) = true).
    { rewrite forallb_forall in *. intros d Hd. apply well_typed_has_dict, H, Hd. }
    rewrite (comprehension_fold _ _ (or_intror D)). eexists. reflexivity.
Qed.

(** X15.  When every message the feed delivers is as documented (an object
    whose timestamp, if present, is a number a float holds and whose
    variables, if present, are an object of such numbers), every record in
    the buffer is as the dataclass annotates it, after any number of
    connections in either file, and a presenter tick on that buffer does
    not raise. *)
Theorem documented_feed_keeps_the_plot_alive (v : variant) (attempts : list attempt) :
  let w := fst (websocket_client v init attempts) in
  forallb documented (delivered attempts) = true ->
  forallb WS.well_typed (data_buffer w) = true
  /\ exists w', update_plot w = Some w'.
Proof.
  cbv zeta. intros H.
  assert (T : forallb WS.well_typed
                (data_buffer (fst (websocket_client v init attempts))) = true)
    by (apply websocket_client_documented; [exact H | reflexivity]).
  split; [exact T | now apply update_plot_defined].
Qed.

Lemma documented_feed_keeps_the_plot_alive_witness :
  let m := {| json_loads :=
                Loaded (PDict [(lit "timestamp", PNum 3);
                               (lit "variables", PDict [(lit "voltage", PNum 12)])]);
              now := PNum 4 |} in
  let attempts := [ConnectRaises; Opened [m] StreamRaises; Opened [m] EndOfStream] in
  forallb documented (delivered attempts) = true
  /\ exists w', update_plot (fst (websocket_client websockui init attempts)) = Some w'.
Proof.
  cbv zeta. split; [reflexivity|].
  apply (documented_feed_keeps_the_plot_alive websockui
    [ConnectRaises;
     Opened [{| json_loads :=
                  Loaded (PDict [(lit "timestamp", PNum 3);
                                 (lit "variables", PDict [(lit "voltage", PNum 12)])]);
                now := PNum 4 |}] StreamRaises;
     Opened [{| json_loads :=
                  Loaded (PDict [(lit "timestamp", PNum 3);
                                 (lit "variables", PDict [(lit "voltage", PNum 12)])]);
                now := PNum 4 |}] EndOfStream]).
  reflexivity.
Defined.

(** A documented message must hold numbers a float holds: an integer of
    400 digits is a JSON number, and a tick on its record raises. *)
Example huge_integer_breaks_the_tick :
  let huge := PNum (inject_Z (10 ^ 400)) in
  let m := {| json_loads := Loaded (PDict [(lit "variables", PDict [(lit "a", huge)])]);
              now := PNum 4 |} in
  WS.is_num huge = true
  /\ documented m = false
  /\ update_plot (fst (fst (on_message ui04 init m))) = None.
Proof.
  cbv zeta. split; [reflexivity|]. split; vm_compute; reflexivity.
Qed.

Lemma list_text_eqb_refl (a : list text) : list_text_eqb a a = true.
Proof.
  unfold list_text_eqb.
  destruct (list_eq_dec (list_eq_dec N.eq_dec) a a); congruence.
Qed.

(** X16.  A presenter tick is idempotent: a second tick on the state the
    first one left, with no record received in between, changes nothing, so
    the plot's variables are not reset again. *)
Theorem update_plot_twice (w w' : t) :
  update_plot w = Some w' -> update_plot w' = Some w'.
Proof.
  unfold update_plot.
  destruct (last (map Some (data_buffer w)) None) as [latest|] eqn:L.
  - destruct (WS.variables latest) as [| | | | |items] eqn:V; try discriminate.
    destruct (forallb (fun kv => formattable (snd kv)) items) eqn:F; [|discriminate].
    set (vars := if list_text_eqb (map fst items) (variables w)
                 then variables w else map fst items).
    assert (Hvars : vars = map fst items).
    { unfold vars. destruct (list_text_eqb (map fst items) (variables w)) eqn:E;
        [symmetry; now apply list_text_eqb_eq | reflexivity]. }
    destruct (comprehension [] vars (data_buffer w)) as [vals|] eqn:C; [|discriminate].
    intros [= <-]. cbn [data_buffer variables plot_widget plot_variables].
    rewrite L, V, F. rewrite <- Hvars, list_text_eqb_refl, C. reflexivity.
  - intros [= <-]. now rewrite L.
Qed.

Lemma update_plot_twice_witness :
  let r := {| WS.timestamp := PNum 10; WS.variables := PDict [(lit "a", PNum 1)] |} in
  let w' := {| data_buffer := [r]; max_data_points := 100; variables := [lit "a"];
               table := [(lit "a", PNum 1)];
               plot_widget := {| plot_variables := [lit "a"]; times := [PNum 10];
                                 values := [(lit "a", [PNum 1])] |} |} in
  update_plot (set_buffer init [r]) = Some w' /\ update_plot w' = Some w'.
Proof.
  cbv zeta. split; [reflexivity|].
  apply (update_plot_twice
    (set_buffer init
       [{| WS.timestamp := PNum 10; WS.variables := PDict [(lit "a", PNum 1)] |}])).
  reflexivity.
Defined.

Lemma records_of_app (a b : list message) :
  records_of (a ++ b) = records_of a ++ records_of b.
Proof.
  induction a as [|m a IH]; [reflexivity|].
  cbn [app records_of].
  destruct (json_loads m) as [[| | | | |items]| |]; try exact IH.
  cbn [app]. now rewrite IH.
Qed.

Lemma updates_app (a b : list effect) : updates (a ++ b) = updates a ++ updates b.
Proof.
  induction a as [|e a IH]; [reflexivity|].
  destruct e; cbn [app updates]; try exact IH. now rewrite IH.
Qed.

(** Where no message lets an exception out, receiving is appending the
    records of the messages and announcing each of them. *)
Lemma receive_records (v : variant) (msgs : list message) : forall w,
  v = ui04 \/ existsb lets_exception_out msgs = false ->
  fst (fst (receive v w msgs)) = fold_left append (records_of msgs) w
  /\ updates (snd (fst (receive v w msgs))) = records_of msgs
  /\ snd (receive v w msgs) = true.
Proof.
  induction msgs as [|m msgs IH]; intros w H; [repeat split|].
  assert (H' : v = ui04 \/ existsb lets_exception_out msgs = false).
  { destruct H as [H|H]; [now left | right].
    cbn [existsb] in H. now apply orb_false_iff in H as [_ H]. }
  assert (Hm : v = ui04 \/ lets_exception_out m = false).
  { destruct H as [H|H]; [now left | right].
    cbn [existsb] in H. now apply orb_false_iff in H as [H _]. }
  cbn [receive records_of]. unfold on_message, lets_exception_out in *.
  destruct (json_loads m) as [[| | | | |items]| |];
    try (destruct Hm as [->|Hm]; [|discriminate];
         destruct (IH w H') as (I1 & I2 & I3);
         destruct (receive ui04 w msgs) as [[w'' evs'] ok'];
         cbn [fst snd app updates] in *; repeat split; assumption).
  - destruct (IH (append w (make_record items (now m))) H') as (I1 & I2 & I3).
    destruct (receive v (append w (make_record items (now m))) msgs)
      as [[w'' evs'] ok'].
    cbn [fst snd app updates fold_left] in *. repeat split; congruence.
  - destruct (IH w H') as (I1 & I2 & I3).
    destruct (receive v w msgs) as [[w'' evs'] ok'].
    cbn [fst snd app updates] in *. repeat split; assumption.
Qed.

Lemma existsb_app_false (A : Type) (p : A -> bool) (a b : list A) :
  existsb p (a ++ b) = false -> existsb p a = false /\ existsb p b = false.
Proof. rewrite existsb_app. apply orb_false_iff. Qed.

Lemma websocket_client_records (v : variant) (attempts : list attempt) : forall w,
  v = ui04 \/ existsb lets_exception_out (delivered attempts) = false ->
  fst (websocket_client v w attempts)
  = fold_left append (records_of (delivered attempts)) w
  /\ updates (snd (websocket_client v w attempts)) = records_of (delivered attempts).
Proof.
  induction attempts as [|a rest IH]; intros w H; [split; reflexivity|].
  rewrite websocket_client_cons. cbn [fst snd].
  destruct a as [|msgs fin].
  - cbn [pass fst snd retry delivered]. rewrite updates_app.
    destruct (IH w H) as [I1 I2]. now rewrite I1, I2.
  - cbn [delivered] in *.
    assert (Hm : v = ui04 \/ existsb lets_exception_out msgs = false).
    { destruct H as [H|H]; [now left | right].
      now apply existsb_app_false in H as [H _]. }
    assert (Hr : v = ui04 \/ existsb lets_exception_out (delivered rest) = false).
    { destruct H as [H|H]; [now left | right].
      now apply existsb_app_false in H as [_ H]. }
    destruct (receive_records v msgs w Hm) as (R1 & R2 & R3).
    rewrite pass_raises. unfold pass.
    destruct (receive v w msgs) as [[w' evs] ok]. cbn [fst snd] in *.
    destruct (IH w' Hr) as [I1 I2].
    rewrite I1, records_of_app, fold_left_app. split; [now rewrite R1|].
    rewrite !updates_app, I2. cbn [updates]. rewrite R2.
    replace (updates (if raises v w (Opened msgs fin) then retry else [])) with
      (@nil WS.WebSocketData) by (destruct (raises v w (Opened msgs fin)); reflexivity).
    now rewrite app_nil_r.
Qed.

(** X17.  Reconnecting neither clears nor reorders the buffer.  Over a whole
    run of ui04.py, and of websockui.py as long as no message lets an
    exception out of the receive loop (each message is a text that is not
    JSON, which is dropped, or decodes to an object), the buffer holds the
    last 100 of the records of all object messages of all connections, in
    arrival order, and [data_updated] was emitted once for each record, in
    that order. *)
Theorem buffer_survives_reconnects (v : variant) (attempts : list attempt) :
  let records := records_of (delivered attempts) in
  let result := websocket_client v init attempts in
  v = ui04 \/ existsb lets_exception_out (delivered attempts) = false ->
  data_buffer (fst result) = skipn (length records - 100) records
  /\ updates (snd result) = records.
Proof.
  cbv zeta. intros H.
  destruct (websocket_client_records v attempts init H) as [W1 W2].
  split; [|exact W2]. rewrite W1.
  destruct (fold_append_spec (records_of (delivered attempts)) init (Nat.le_0_l _))
    as (F1 & _).
  rewrite F1. reflexivity.
Qed.

Lemma buffer_survives_reconnects_witness :
  let m n := {| json_loads := Loaded (PDict [(lit "timestamp", PNum n)]); now := PNum 0 |} in
  let bad := {| json_loads := JSONDecodeError; now := PNum 0 |} in
  let attempts := [Opened [m 1%Q; bad] StreamRaises; ConnectRaises;
                   Opened [m 2%Q] EndOfStream; Opened [m 3%Q] StreamRaises] in
  existsb lets_exception_out (delivered attempts) = false
  /\ map WS.timestamp (data_buffer (fst (websocket_client websockui init attempts)))
     = [PNum 1; PNum 2; PNum 3].
Proof.
  cbv zeta. split; [reflexivity|].
  pose proof (buffer_survives_reconnects websockui
    [Opened [{| json_loads := Loaded (PDict [(lit "timestamp", PNum 1)]); now := PNum 0 |};
             {| json_loads := JSONDecodeError; now := PNum 0 |}] StreamRaises;
     ConnectRaises;
     Opened [{| json_loads := Loaded (PDict [(lit "timestamp", PNum 2)]); now := PNum 0 |}]
            EndOfStream;
     Opened [{| json_loads := Loaded (PDict [(lit "timestamp", PNum 3)]); now := PNum 0 |}]
            StreamRaises]
    (or_intror eq_refl)) as H.
  rewrite (proj1 H). reflexivity.
Defined.

Lemma receive_stops_at_exception (m : message) (pre post : list message) :
  lets_exception_out m = true ->
  forall w,
  receive websockui w (pre ++ m :: post) = receive websockui w (pre ++ [m])
  /\ snd (receive websockui w (pre ++ m :: post)) = false.
Proof.
  intros Hm. unfold lets_exception_out in Hm.
  induction pre as [|x pre IH]; intros w.
  - cbn [app receive]. unfold on_message.
    destruct (json_loads m) as [[| | | | |items]| |]; try discriminate; split; reflexivity.
  - cbn [app receive].
    destruct (on_message websockui w x) as [[w' evs] ok].
    destruct ok; [|split; reflexivity].
    destruct (IH w') as [I1 I2]. rewrite I1.
    destruct (receive websockui w' (pre ++ [m])) as [[w'' evs'] ok'] eqn:E.
    split; [reflexivity|]. rewrite I1 in I2. exact I2.
Qed.

Lemma is_non_object_lets_out (m : message) :
  is_non_object m = true -> lets_exception_out m = true.
Proof.
  unfold is_non_object, lets_exception_out.
  destruct (json_loads m) as [[| | | | |items]| |]; try discriminate; reflexivity.
Qed.

(** X18.  In websockui.py a decoded message that is not an object ends the
    connection: the messages that follow it on that connection are never
    read, whatever they hold, and the pass ends with the "disconnected,
    retrying" mark and the wait.  In ui04.py the same message is skipped
    and the following ones are received.  (Before it, the messages are
    taken to let no exception out.) *)
Theorem websockui_non_object_drops_the_connection (m : message)
  (pre post : list message) (w : DataVisualizer.t) (fin : stream_end) :
  is_non_object m = true ->
  existsb lets_exception_out pre = false ->
  receive websockui w (pre ++ m :: post) = receive websockui w (pre ++ [m])
  /\ fst (fst (receive websockui w (pre ++ m :: post)))
     = fold_left append (records_of pre) w
  /\ raises websockui w (Opened (pre ++ m :: post) fin) = true
  /\ fst (fst (receive ui04 w (pre ++ m :: post)))
     = fold_left append (records_of (pre ++ post)) w.
Proof.
  intros Hm Hpre.
  destruct (receive_stops_at_exception m pre post (is_non_object_lets_out m Hm) w)
    as [S1 S2].
  split; [exact S1|]. split; [|split].
  - rewrite S1. clear S1 S2. revert w.
    induction pre as [|x pre IH]; intros w.
    + cbn [app receive]. unfold on_message, is_non_object in *.
      destruct (json_loads m) as [[| | | | |items]| |]; try discriminate; reflexivity.
    + cbn [existsb] in Hpre. apply orb_false_iff in Hpre as [Hx Hr].
      cbn [app receive records_of]. unfold on_message, lets_exception_out in Hx |- *.
      destruct (json_loads x) as [[| | | | |items]| |]; try discriminate.
      * specialize (IH Hr (append w (make_record items (now x)))).
        destruct (receive websockui (append w (make_record items (now x)))
                          (pre ++ [m])) as [[w'' evs'] ok'].
        exact IH.
      * specialize (IH Hr w).
        destruct (receive websockui w (pre ++ [m])) as [[w'' evs'] ok']. exact IH.
  - unfold raises.
    destruct (receive websockui w (pre ++ m :: post)) as [[w' evs] ok].
    cbn [snd] in S2. now rewrite S2.
  - destruct (receive_records ui04 (pre ++ m :: post) w (or_introl eq_refl))
      as (R1 & _ & _).
    rewrite R1, !records_of_app. f_equal. f_equal.
    cbn [records_of]. unfold is_non_object in Hm.
    destruct (json_loads m) as [[| | | | |items]| |]; try discriminate; reflexivity.
Qed.

Lemma websockui_non_object_drops_the_connection_witness :
  let list_msg := {| json_loads := Loaded (PList [PNum 1; PNum 2]); now := PNum 8 |} in
  let next := {| json_loads := Loaded (PDict []); now := PNum 9 |} in
  is_non_object list_msg = true
  /\ data_buffer (fst (fst (receive websockui init ([] ++ list_msg :: [next])))) = []
  /\ data_buffer (fst (fst (receive ui04 init ([] ++ list_msg :: [next]))))
     = [make_record [] (PNum 9)].
Proof.
  cbv zeta. split; [reflexivity|].
  pose proof (websockui_non_object_drops_the_connection
    {| json_loads := Loaded (PList [PNum 1; PNum 2]); now := PNum 8 |} []
    [{| json_loads := Loaded (PDict []); now := PNum 9 |}] init EndOfStream
    eq_refl eq_refl) as H.
  split.
  - rewrite (proj1 (proj2 H)). reflexivity.
  - rewrite (proj2 (proj2 (proj2 H))). reflexivity.
Defined.

(** The same holds in websockui.py when [json.loads] itself raises
    something other than its decode error, as on a binary frame. *)
Example websockui_binary_frame_ends_stream :
  let binary := {| json_loads := LoadsError; now := PNum 8 |} in
  let next := {| json_loads := Loaded (PDict []); now := PNum 9 |} in
  pass websockui init (Opened [binary; next] EndOfStream)
  = (init, [set_status Connected; set_status DisconnectedRetrying; sleep 3])
  /\ data_buffer (fst (pass ui04 init (Opened [binary; next] EndOfStream)))
     = [make_record [] (PNum 9)].
Proof.
  split; reflexivity.
Qed.
